(** * notevil: a shallow embedding of the sandboxed evaluator of [index.js]

    The evaluator is a recursive walk over an esprima syntax tree, run
    against a scope chain made of host objects linked by their prototype.
    The embedding keeps that shape: syntax nodes are an inductive type with
    the fields [walk] reads, objects (scope frames included) live in a heap
    of records with a prototype link and an ordered list of own entries,
    [ReturnValue] is an ordinary value, and a host [throw] is one outcome of
    a small state-and-exception monad. *)

From Stdlib Require Import ZArith List String Ascii Bool Lia DecimalString.
Import ListNotations.
Open Scope string_scope.
Open Scope list_scope.
Open Scope Z_scope.
Set Warnings "-register-all".

(** ** Syntax tree (esprima node shapes, as far as [walk] reads them) *)

Inductive lit :=
| LNull
| LBool (b : bool)
| LNum (n : Z)
| LStr (s : string).

Inductive node :=
| Program (body : list node)
| BlockStatement (body : list node)
| EmptyStatement
| FunctionDeclaration (id : string) (params : list string) (body : node)
| FunctionExpression (params : list string) (body : node)
| ReturnStatement (argument : option node)
| BreakStatement
| ContinueStatement
| ExpressionStatement (expression : node)
| AssignmentExpression (operator : string) (left right : node)
| UpdateExpression (operator : string) (argument : node)
| VariableDeclaration (declarations : list (string * option node))
| IfStatement (test consequent : node) (alternate : option node)
| ForStatement (init test update : option node) (body : node)
| ForInStatement (left right body : node)
| WhileStatement (test body : node)
| TryStatement (block : node) (handlers : list (string * node))
               (finalizer : option node)
| Literal (value : lit)
| UnaryExpression (operator : string) (argument : node)
| ArrayExpression (elements : list node)
| ObjectExpression (properties : list (string * node))
| NewExpression (callee : node) (arguments : list node)
| BinaryExpression (operator : string) (left right : node)
| LogicalExpression (operator : string) (left right : node)
| ThisExpression
| Identifier (name : string)
| CallExpression (callee : node) (arguments : list node)
| MemberExpression (computed : bool) (object property : node)
| ConditionalExpression (test consequent alternate : node)
| OtherNode (type : string).

(** ** Values *)

Definition loc := nat.

(** Host callables that the guest can reach. *)
Inductive host :=
| HObject          (* the sandbox's Object constructor *)
| HArray           (* the sandbox's Array constructor *)
| HPush            (* Array.prototype.push *)
| HBuiltin (name : string)   (* any other built-in method *)
| HFunction        (* the host's own Function constructor *)
| HSafeFunction (ctx : loc). (* FunctionFactory(context) *)

(** The three [type] tags a [ReturnValue] is built with. *)
Inductive rtype := RReturn | RBreak | RContinue.

Inductive value :=
| VUndef
| VNull
| VBool (b : bool)
| VNum (n : Z)
| VNaN
| VStr (s : string)
| VObj (l : loc)
| VErr (message : string)
| VHost (h : host)
| VClos (params : list string) (body : node) (parentContext : loc)
| VRet (type : rtype) (v : value).

(** ** Heap of objects *)

Record entry := { e_val : value; e_enum : bool }.

Record obj := { o_proto : option loc; o_props : list (string * entry) }.

Definition heap := list obj.

Definition get_obj (h : heap) (l : loc) : option obj := nth_error h l.

Fixpoint set_nth {A} (l : list A) (n : nat) (x : A) : list A :=
  match l, n with
  | [], _ => []
  | _ :: t, O => x :: t
  | a :: t, S n' => a :: set_nth t n' x
  end.

Definition alloc (h : heap) (o : obj) : loc * heap :=
  (List.length h, h ++ [o]).

Fixpoint assoc {A} (k : string) (l : list (string * A)) : option A :=
  match l with
  | [] => None
  | (k', a) :: t => if String.eqb k k' then Some a else assoc k t
  end.

(** Overwrite in place (keeping position and flag) or append a new
    enumerable entry, as [object[name] = v] does on an ordinary object. *)
Fixpoint put (k : string) (v : value) (l : list (string * entry))
  : list (string * entry) :=
  match l with
  | [] => [(k, {| e_val := v; e_enum := true |})]
  | (k', e) :: t =>
      if String.eqb k k' then (k', {| e_val := v; e_enum := e_enum e |}) :: t
      else (k', e) :: put k v t
  end.

(** [Object.prototype.hasOwnProperty.call(object, key)] *)
Definition hasOwnProperty (h : heap) (l : loc) (key : string) : bool :=
  match get_obj h l with
  | Some o => match assoc key (o_props o) with Some _ => true | None => false end
  | None => false
  end.

(** [Object.prototype.propertyIsEnumerable.call(object, key)] *)
Definition propertyIsEnumerable (h : heap) (l : loc) (key : string) : bool :=
  match get_obj h l with
  | Some o => match assoc key (o_props o) with Some e => e_enum e | None => false end
  | None => false
  end.

(** [object[key]] on an object: the first own entry along the prototype
    chain.  [d] bounds the walk by the size of the heap. *)
Fixpoint get_from (d : nat) (h : heap) (l : loc) (key : string) : value :=
  match d with
  | O => VUndef
  | S d' =>
      match get_obj h l with
      | None => VUndef
      | Some o =>
          match assoc key (o_props o) with
          | Some e => e_val e
          | None => match o_proto o with
                    | Some p => get_from d' h p key
                    | None => VUndef
                    end
          end
      end
  end.

(** The key [__proto__] is not a data entry but an accessor inherited from
    the host's [Object.prototype]; reads and unguarded writes of that key
    are kept out of the model where the evaluator makes them (see
    [get_property], [declare] and the [Identifier] case of [walk]), so
    [get] is only ever applied to other keys. *)
Definition get (h : heap) (l : loc) (key : string) : value :=
  get_from (S (List.length h)) h l key.

(** [object[key] = v] on an object. *)
Definition set (h : heap) (l : loc) (key : string) (v : value) : heap :=
  match get_obj h l with
  | Some o => set_nth h l {| o_proto := o_proto o; o_props := put key v (o_props o) |}
  | None => h
  end.

(** [Object.create(parent)] *)
Definition create (h : heap) (parent : loc) : loc * heap :=
  alloc h {| o_proto := Some parent; o_props := [] |}.

(** ** Outcomes of running host code

    [Throw] is a host [throw]: every JavaScript exception travels on this
    one channel.  [OutOfFuel] and [Unmodelled] are not behaviours of the
    program: the first says the recursion budget of the embedding was too
    small, the second that the run left the fragment of JavaScript that is
    modelled here (fractions, string comparison, property access on
    functions, ...). *)

Inductive outcome (A : Type) :=
| Ok (a : A) (h : heap)
| Throw (error : value) (h : heap)
| OutOfFuel
| Unmodelled.
Arguments Ok {A} a h.
Arguments Throw {A} error h.
Arguments OutOfFuel {A}.
Arguments Unmodelled {A}.

Definition M (A : Type) := heap -> outcome A.

Definition ret {A} (a : A) : M A := fun h => Ok a h.

Definition bind {A B} (m : M A) (k : A -> M B) : M B :=
  fun h => match m h with
           | Ok a h' => k a h'
           | Throw e h' => Throw e h'
           | OutOfFuel => OutOfFuel
           | Unmodelled => Unmodelled
           end.

Definition throw {A} (e : value) : M A := fun h => Throw e h.
Definition unmodelled {A} : M A := fun _ => Unmodelled.
Definition read {A} (f : heap -> A) : M A := fun h => Ok (f h) h.
Definition write (f : heap -> heap) : M unit := fun h => Ok tt (f h).

Declare Scope js_scope.
Delimit Scope js_scope with js.
Notation "x <- m ;; k" := (bind m (fun x => k))
  (at level 61, m at next level, right associativity) : js_scope.
Notation "m ;;; k" := (bind m (fun _ => k))
  (at level 61, right associativity) : js_scope.
Open Scope js_scope.

(** [try { body } catch (error) { handler error } finally { fin }]:
    the catch clause receives whatever was thrown; the finalizer runs on
    every path and its own throw replaces a pending one. *)
Definition try_catch_finally {A} (body : M A) (handler : value -> M A)
           (fin : M unit) : M A :=
  fun h =>
    let after :=
      match body h with
      | Throw e h1 => handler e h1
      | r => r
      end in
    match after with
    | Ok a h2 => match fin h2 with
                 | Ok _ h3 => Ok a h3
                 | Throw e h3 => Throw e h3
                 | OutOfFuel => OutOfFuel
                 | Unmodelled => Unmodelled
                 end
    | Throw e h2 => match fin h2 with
                    | Ok _ h3 => Throw e h3
                    | Throw e' h3 => Throw e' h3
                    | OutOfFuel => OutOfFuel
                    | Unmodelled => Unmodelled
                    end
    | OutOfFuel => OutOfFuel
    | Unmodelled => Unmodelled
    end.

(** ** The security guard ([lib/primitives], an argument of the functions
    below exactly as in the source) *)

Record Primitives := {
  isPrimative : value -> bool;
  getPrototypeOf : heap -> value -> value;
  getPropertyObject : heap -> value -> value -> value;
  applyNew : value -> list value -> M value;
  (* what the call [Primitives(context)] itself does to the heap *)
  install : loc -> M unit
}.

(** Modelled from the spec: [lib/primitives] is not among the sources.
    Section 4.4: the primitive check classifies numeric, textual, boolean,
    null and undefined values as non-containers; the prototype-parent
    lookup returns the next link of a value's delegation chain, or none at
    the root; property-container resolution leaves an object as it is;
    controlled construction is outside the modelled fragment.
    Assumed, for neither the sources nor the spec say what the call
    [Primitives(context)] does to the context: array and object literals
    call [context['Array']] and [context['Object']] (section 4.1: the
    sandbox's own container constructors), so the call is taken to put
    these two constructors into the context when a read of the name finds
    nothing, and to do nothing else. *)
Definition ensure (key : string) (v : value) (context : loc) (h : heap)
  : heap :=
  match get h context key with
  | VUndef => set h context key v
  | _ => h
  end.

Definition spec_primitives : Primitives := {|
  isPrimative := fun v =>
    match v with
    | VUndef | VNull | VBool _ | VNum _ | VNaN | VStr _ => true
    | _ => false
    end;
  getPrototypeOf := fun h v =>
    match v with
    | VObj l => match get_obj h l with
                | Some {| o_proto := Some p |} => VObj p
                | _ => VNull
                end
    | _ => VNull
    end;
  getPropertyObject := fun _ v _ => v;
  applyNew := fun _ _ => unmodelled;
  install := fun context h =>
    Ok tt (ensure "Array" (VHost HArray) context
                  (ensure "Object" (VHost HObject) context h))
|}.

(** Modelled from the spec: [lib/infinite-checker] is not among the
    sources.  Section 4.5: a counter per loop activation, incremented once
    per check; exceeding the ceiling raises a failure.  A failure raised by
    host code is a host exception, the only way a JavaScript callee has to
    abort its caller. *)
Definition infinite_check (maxIterations : Z) (count : Z) : M Z :=
  let count' := count + 1 in
  if maxIterations <? count'
  then throw (VErr "Infinite loop detected - reached max iterations")
  else ret count'.

Definition maxIterations : Z := 1000000.

(** ** Host operators on values

    Numbers are modelled by the integers (and NaN).  A double holds every
    integer up to 2^53 in absolute value exactly, and an operation whose
    operands and exact result lie in that range yields the exact result;
    anything else (a fraction, a larger number) is outside the model, as
    are conversions of objects to primitives. *)

Definition safe (n : Z) : bool := (- 2 ^ 53 <=? n) && (n <=? 2 ^ 53).

Definition truthy (v : value) : bool :=
  match v with
  | VUndef | VNull | VBool false | VNaN | VStr "" => false
  | VNum n => negb (n =? 0)
  | _ => true
  end.

Definition digit_of (c : ascii) : option Z :=
  let n := Z.of_nat (nat_of_ascii c) in
  if (48 <=? n) && (n <=? 57) then Some (n - 48) else None.

Fixpoint parse_digits (acc : Z) (s : string) : option Z :=
  match s with
  | EmptyString => Some acc
  | String c s' =>
      match digit_of c with
      | Some d => parse_digits (10 * acc + d) s'
      | None => None
      end
  end.

(** ToNumber; [None] when outside the model. *)
Definition to_number (v : value) : option value :=
  match v with
  | VUndef => Some VNaN
  | VNull => Some (VNum 0)
  | VBool b => Some (VNum (if b then 1 else 0))
  | VNum n => Some (VNum n)
  | VNaN => Some VNaN
  | VStr s => match parse_digits 0 s with
              | Some n => if safe n then Some (VNum n) else None
              | None => None
              end
  | _ => None
  end.

(** ToString on primitives. *)
Definition to_string (v : value) : option string :=
  match v with
  | VUndef => Some "undefined"
  | VNull => Some "null"
  | VBool b => Some (if b then "true" else "false")
  | VNum n => if safe n then Some (NilZero.string_of_int (Z.to_int n))
              else None
  | VNaN => Some "NaN"
  | VStr s => Some s
  | _ => None
  end.

Definition to_int32 (n : Z) : Z := (n + 2 ^ 31) mod 2 ^ 32 - 2 ^ 31.

Definition typeof (v : value) : string :=
  match v with
  | VUndef => "undefined"
  | VBool _ => "boolean"
  | VNum _ | VNaN => "number"
  | VStr _ => "string"
  | VHost _ | VClos _ _ _ => "function"
  | VNull | VObj _ | VErr _ | VRet _ _ => "object"
  end.

Definition is_primitive_value (v : value) : bool :=
  match v with
  | VUndef | VNull | VBool _ | VNum _ | VNaN | VStr _ => true
  | _ => false
  end.

(** [l === r]; [None] where the model has no object identity to compare. *)
Definition strict_equal (l r : value) : option bool :=
  match l, r with
  | VUndef, VUndef | VNull, VNull => Some true
  | VBool a, VBool b => Some (Bool.eqb a b)
  | VNum a, VNum b => Some (a =? b)
  | VStr a, VStr b => Some (String.eqb a b)
  | VObj a, VObj b => Some (Nat.eqb a b)
  | (VErr _ | VHost _ | VClos _ _ _ | VRet _ _),
    (VErr _ | VHost _ | VClos _ _ _ | VRet _ _) => None
  | _, _ => Some false
  end.

(** [l == r] (abstract equality comparison). *)
Definition loose_equal (l r : value) : option bool :=
  match l, r with
  | (VUndef | VNull), (VUndef | VNull) => Some true
  | (VUndef | VNull), _ | _, (VUndef | VNull) =>
      if is_primitive_value l && is_primitive_value r then Some false
      else strict_equal l r
  | (VNum _ | VNaN | VBool _ | VStr _), (VNum _ | VNaN | VBool _ | VStr _) =>
      match l, r with
      | VStr a, VStr b => Some (String.eqb a b)
      | _, _ =>
          match to_number l, to_number r with
          | Some (VNum a), Some (VNum b) => Some (a =? b)
          | Some _, Some _ => Some false
          | _, _ => None
          end
      end
  | (VObj _ | VErr _ | VHost _ | VClos _ _ _ | VRet _ _),
    (VObj _ | VErr _ | VHost _ | VClos _ _ _ | VRet _ _) => strict_equal l r
  | _, _ => None
  end.

Inductive opres :=
| Res (v : value)
| Unsupported
| NotModelled.

Definition of_bool (o : option bool) : opres :=
  match o with Some b => Res (VBool b) | None => NotModelled end.

(** A numeric result, kept only when a double holds it exactly. *)
Definition exact (r : opres) : opres :=
  match r with
  | Res (VNum c) => if safe c then r else NotModelled
  | _ => r
  end.

(** Arithmetic on two operands after ToNumber. *)
Definition arith (f : Z -> Z -> opres) (l r : value) : opres :=
  match to_number l, to_number r with
  | Some (VNum a), Some (VNum b) =>
      if safe a && safe b then exact (f a b) else NotModelled
  | Some _, Some _ => Res VNaN
  | _, _ => NotModelled
  end.

Definition compare_with (f : Z -> Z -> bool) (l r : value) : opres :=
  match l, r with
  | VStr _, VStr _ => NotModelled
  | _, _ =>
      match to_number l, to_number r with
      | Some (VNum a), Some (VNum b) =>
          if safe a && safe b then Res (VBool (f a b)) else NotModelled
      | Some _, Some _ => Res (VBool false)
      | _, _ => NotModelled
      end
  end.

Definition bitwise (f : Z -> Z -> Z) (l r : value) : opres :=
  match to_number l, to_number r with
  | Some a, Some b =>
      let ok v := match v with VNum n => safe n | _ => true end in
      let i v := match v with VNum n => to_int32 n | _ => 0 end in
      if ok a && ok b then Res (VNum (to_int32 (f (i a) (i b))))
      else NotModelled
  | _, _ => NotModelled
  end.

(** [l + r]: concatenation as soon as one side is a string. *)
Definition js_add (l r : value) : opres :=
  match l, r with
  | VStr _, _ | _, VStr _ =>
      match to_string l, to_string r with
      | Some a, Some b => Res (VStr (a ++ b)%string)
      | _, _ => NotModelled
      end
  | _, _ => arith (fun a b => Res (VNum (a + b))) l r
  end.

(** The operator switches of [walk], read from the source.  A [switch]
    on a string is a chain of comparisons ending in the [default]. *)
Notation "'case' s 'of' op => e ; rest" :=
  (if String.eqb s op then e else rest)
  (at level 10, s at level 0, op at level 0, e at level 99,
   rest at level 200, only parsing).

Definition unary (operator : string) (val : value) : opres :=
  case operator of "+" =>
    match to_number val with Some n => Res n | None => NotModelled end ;
  case operator of "-" =>
    match to_number val with
    | Some (VNum n) => Res (VNum (- n))
    | Some n => Res n
    | None => NotModelled
    end ;
  case operator of "~" =>
    match to_number val with
    | Some (VNum n) => Res (VNum (Z.lnot (to_int32 n)))
    | Some _ => Res (VNum (-1))
    | None => NotModelled
    end ;
  case operator of "!" => Res (VBool (negb (truthy val))) ;
  case operator of "typeof" => Res (VStr (typeof val)) ;
  Unsupported.

Definition binary (operator : string) (l r : value) : opres :=
  case operator of "==" => of_bool (strict_equal l r) ;
  case operator of "===" => of_bool (strict_equal l r) ;
  case operator of "!=" => of_bool (option_map negb (loose_equal l r)) ;
  case operator of "!==" => of_bool (option_map negb (strict_equal l r)) ;
  case operator of "+" => js_add l r ;
  case operator of "-" => arith (fun a b => Res (VNum (a - b))) l r ;
  case operator of "*" => arith (fun a b => Res (VNum (a * b))) l r ;
  case operator of "/" =>
    arith (fun a b => if (b =? 0) || negb (Z.rem a b =? 0)
                      then NotModelled else Res (VNum (Z.quot a b))) l r ;
  case operator of "%" =>
    arith (fun a b => if b =? 0 then Res VNaN else Res (VNum (Z.rem a b))) l r ;
  case operator of "<" => compare_with Z.ltb l r ;
  case operator of "<=" => compare_with Z.leb l r ;
  case operator of ">" => compare_with Z.gtb l r ;
  case operator of ">=" => compare_with Z.geb l r ;
  case operator of "|" => bitwise Z.lor l r ;
  case operator of "&" => bitwise Z.land l r ;
  case operator of "^" => bitwise Z.lxor l r ;
  case operator of "instanceof" => NotModelled ;
  Unsupported.

(** ** Guard functions of [index.js] *)

Definition own (h : heap) (object : value) (key : string) : bool :=
  match object with
  | VObj l => hasOwnProperty h l key
  | _ => false
  end.

Definition own_enumerable (h : heap) (object : value) (key : string) : bool :=
  match object with
  | VObj l => propertyIsEnumerable h l key
  | _ => false
  end.

(** [object != null] *)
Definition not_nullish (v : value) : bool :=
  match v with VUndef | VNull => false | _ => true end.

(** [objectForKey(object, key, primitives)].  The recursion follows the
    prototype chain; [d] bounds it (chains are acyclic, so the size of the
    heap is enough). *)
Fixpoint objectForKey_from (d : nat) (P : Primitives) (h : heap)
         (object : value) (key : string) : value :=
  let proto := getPrototypeOf P h object in
  if negb (truthy proto) || own h object key then object
  else match d with
       | O => object
       | S d' => objectForKey_from d' P h proto key
       end.

Definition objectForKey (P : Primitives) (h : heap) (object : value)
           (key : string) : value :=
  objectForKey_from (List.length h) P h object key.

(** [canSetProperty(object, property, primitives)] *)
Fixpoint canSetProperty_from (d : nat) (P : Primitives) (h : heap)
         (object : value) (property : string) : bool :=
  if (property =? "__proto__")%string || isPrimative P object then false
  else if not_nullish object then
    if own h object property then
      if own_enumerable h object property then true else false
    else match d with
         | O => false
         | S d' => canSetProperty_from d' P h (getPrototypeOf P h object) property
         end
  else true.

Definition canSetProperty (P : Primitives) (h : heap) (object : value)
           (property : string) : bool :=
  canSetProperty_from (S (List.length h)) P h object property.

(** [finalValue] *)
Definition finalValue (v : value) : value :=
  match v with
  | VRet _ x => x
  | _ => v
  end.

(** ** Host objects the evaluator meets *)

Definition global : loc := 0%nat.
Definition object_prototype : loc := 1%nat.
Definition array_prototype : loc := 2%nat.

Definition out_of_fuel {A} : M A := fun _ => OutOfFuel.

Definition type_error {A} : M A := throw (VErr "TypeError").

(** [object[key]] on any value. *)
Definition get_property (object : value) (key : string) : M value :=
  match object with
  | VObj l => if (key =? "__proto__")%string then unmodelled
              else read (fun h => get h l key)
  | VUndef | VNull => type_error
  | _ => unmodelled
  end.

(** [object[key] = v], unguarded. *)
Definition set_property (object : value) (key : string) (v : value) : M unit :=
  if (key =? "__proto__")%string then unmodelled
  else match object with
       | VObj l => write (fun h => set h l key v)
       | _ => unmodelled
       end.

Definition index_key (i : nat) : string :=
  NilZero.string_of_int (Z.to_int (Z.of_nat i)).

(** A host array holding [vs]. *)
Definition new_array (vs : list value) : M value :=
  fun h =>
    let items := combine (map index_key (seq 0 (List.length vs)))
                         (map (fun v => {| e_val := v; e_enum := true |}) vs) in
    let len := {| e_val := VNum (Z.of_nat (List.length vs)); e_enum := false |} in
    let (l, h') := alloc h {| o_proto := Some array_prototype;
                              o_props := ("length", len) :: items |} in
    Ok (VObj l) h'.

(** [array.push(v)] *)
Definition push (this : value) (v : value) : M value :=
  len <- get_property this "length" ;;
  match len with
  | VNum n =>
      set_property this (index_key (Z.to_nat n)) v ;;;
      set_property this "length" (VNum (n + 1)) ;;;
      ret (VNum (n + 1))
  | _ => unmodelled
  end.

(** ** The evaluator *)

Definition mem (s : string) (l : list string) : bool :=
  existsb (String.eqb s) l.

Definition value_of_lit (l : lit) : value :=
  match l with
  | LNull => VNull
  | LBool b => VBool b
  | LNum n => VNum n
  | LStr s => VStr s
  end.

(** [unsupportedExpression(node)] *)
Definition unsupportedExpression {A} (n : node) : M A :=
  throw (VErr "Unsupported expression").

Definition lift_op (n : node) (r : opres) : M value :=
  match r with
  | Res v => ret v
  | Unsupported => unsupportedExpression n
  | NotModelled => unmodelled
  end.

(** The number a key stands for when it is an array index ("0", "1", ...
    in canonical form). *)
Definition array_index (key : string) : option Z :=
  match parse_digits 0 key with
  | Some n =>
      if (n <? 2 ^ 32 - 1)
         && String.eqb (NilZero.string_of_int (Z.to_int n)) key
      then Some n else None
  | None => None
  end.

Fixpoint insert_index (n : Z) (key : string) (l : list (Z * string))
  : list (Z * string) :=
  match l with
  | [] => [(n, key)]
  | (m, k) :: t =>
      if n <=? m then (n, key) :: l else (m, k) :: insert_index n key t
  end.

(** The order in which the host lists the keys of one object: array
    indices first, ascending, then the other keys as they were created. *)
Definition host_order (keys : list string) : list string :=
  map snd (fold_right (fun k acc => match array_index k with
                                    | Some n => insert_index n k acc
                                    | None => acc
                                    end) [] keys)
  ++ filter (fun k => match array_index k with
                      | Some _ => false
                      | None => true
                      end) keys.

(** Keys visited by [for (key in value)]: the enumerable entries of the
    object and then of its prototypes, unless shadowed nearer by. *)
Fixpoint enum_keys (d : nat) (h : heap) (l : loc) (seen : list string)
  : list string :=
  match d with
  | O => []
  | S d' =>
      match get_obj h l with
      | None => []
      | Some o =>
          let visible :=
            filter (fun ke => e_enum (snd ke)
                              && negb (existsb (String.eqb (fst ke)) seen))
                   (o_props o) in
          host_order (map fst visible) ++
          match o_proto o with
          | Some p => enum_keys d' h p (map fst (o_props o) ++ seen)
          | None => []
          end
      end
  end.

Definition for_in_keys (v : value) : M (list string) :=
  match v with
  | VObj l => read (fun h => enum_keys (S (List.length h)) h l [])
  | VStr "" => ret []
  | VStr _ | VRet _ _ => unmodelled
  | _ => ret []
  end.

Section Evaluator.

Variable primitives : Primitives.
Variable ceiling : Z.

(** [walkAll(nodes)], with [result] the value so far. *)
Fixpoint walkAll (w : node -> M value) (nodes : list node) (result : value)
  : M value :=
  match nodes with
  | [] => ret result
  | EmptyStatement :: rest => walkAll w rest result
  | childNode :: rest =>
      r <- w childNode ;;
      match r with
      | VRet _ _ => ret r
      | _ => walkAll w rest r
      end
  end.

Definition walk_opt (w : node -> M value) (n : option node) : M value :=
  match n with
  | None => ret VUndef
  | Some n => w n
  end.

(** [param = params[idx]] of [getFunction]: [param] is declared nowhere in
    [index.js], so the assignment sets a property of the host's global
    object.  (A heap whose first object is the frame of the call has no
    global object, and nothing is written then.) *)
Definition set_global (context : loc) (key : string) (v : value) : M unit :=
  write (fun h => if Nat.eqb context global then h else set h global key v).

(** [arguments.forEach(function(arg, idx){ ... })] of [getFunction].  A
    parameter named [__proto__] does not reach this loop in a run of the
    model: [walk] builds no closure that has one, and calls of the
    [Function] constructor are outside the model. *)
Fixpoint bind_params (context : loc) (params : list string)
         (args : list value) (idx : nat) : M unit :=
  match args with
  | [] => ret tt
  | arg :: rest =>
      set_global context "param"
                 (match nth_error params idx with
                  | Some param => VStr param
                  | None => VUndef
                  end) ;;;
      match nth_error params idx with
      | Some param =>
          if (param =? "")%string then ret tt
          else write (fun h => set h context param arg)
      | None => ret tt
      end ;;;
      bind_params context params rest (S idx)
  end.

(** The receiver a sloppy-mode host function sees for [apply(thisArg, _)]. *)
Definition this_of_apply (thisArg : value) : value :=
  match thisArg with
  | VUndef | VNull => VObj global
  | v => v
  end.

(** [if (this == global) null else this] *)
Definition bound_this (this : value) : value :=
  match this with
  | VObj l => if Nat.eqb l global then VNull else this
  | _ => this
  end.

(** The function returned by [getFunction(body, params, parentContext)],
    called with receiver [this] and [args]; [ev] is [evaluateAst]. *)
Definition call_function (ev : node -> loc -> M value)
           (body : node) (params : list string) (parentContext : loc)
           (this : value) (args : list value) : M value :=
  context <- (fun h => let (c, h') := create h parentContext in Ok c h') ;;
  write (fun h => set h context "this" (bound_this this)) ;;;
  arguments <- new_array args ;;
  write (fun h => set h context "arguments" arguments) ;;;
  bind_params context params args 0 ;;;
  result <- ev body context ;;
  match result with
  | VRet _ v => ret v
  | _ => ret VUndef
  end.

(** [target.apply(object, args)] *)
Definition apply (ev : node -> loc -> M value)
           (target object : value) (args : list value) : M value :=
  match target with
  | VClos params body parentContext =>
      call_function ev body params parentContext (this_of_apply object) args
  | VHost HObject =>
      fun h => let (l, h') := alloc h {| o_proto := Some object_prototype;
                                         o_props := [] |} in Ok (VObj l) h'
  | VHost HArray => new_array []
  | VHost HPush =>
      match args with
      | [v] => push object v
      | _ => unmodelled
      end
  | VHost _ => unmodelled
  | VObj l =>
      (* an object is called through its own [apply] property *)
      m <- read (fun h => get h l "apply") ;;
      match m with
      | VClos params body parentContext =>
          arr <- new_array args ;;
          call_function ev body params parentContext target [object; arr]
      | VHost _ => unmodelled
      | _ => type_error
      end
  | _ => type_error
  end.

Fixpoint walk_list (w : node -> M value) (nodes : list node)
  : M (list value) :=
  match nodes with
  | [] => ret []
  | n :: rest => v <- w n ;; vs <- walk_list w rest ;; ret (v :: vs)
  end.

(** The first half of [setValue(object, left, right, operator)]: the
    property name and the object the write is aimed at. *)
Definition resolve_target (w : node -> M value) (context : loc) (left : node)
  : M (string * value) :=
  match left with
  | Identifier name =>
      (* handle parent context shadowing *)
      read (fun h => (name, objectForKey primitives h (VObj context) name))
  | MemberExpression computed object property =>
      name <- (if computed
               then v <- w property ;;
                    match to_string v with
                    | Some s => ret s
                    | None => unmodelled
                    end
               else match property with
                    | Identifier s => ret s
                    | _ => unmodelled
                    end) ;;
      o <- w object ;;
      ret (name, o)
  | _ => ret ("null", VObj context)
  end.

(** [setValue(object, left, right, operator)], called with the current
    context as [object].  An absent [operator] is the call made by the
    for-in loop. *)
Definition setValue (w : node -> M value) (context : loc)
           (left : node) (right : option node) (operator : option string)
  : M value :=
  target <- resolve_target w context left ;;
  let name := fst target in
  let object := snd target in
  can <- read (fun h => canSetProperty primitives h object name) ;;
  if can : bool then
    match operator with
    | None =>
        v <- walk_opt w right ;;
        set_property object name v ;;;
        ret v
    | Some operator =>
        case operator of "=" =>
          (v <- walk_opt w right ;;
           set_property object name v ;;;
           ret v) ;
        case operator of "+=" =>
          (old <- get_property object name ;;
           r <- walk_opt w right ;;
           v <- lift_op left (js_add old r) ;;
           set_property object name v ;;;
           ret v) ;
        case operator of "-=" =>
          (old <- get_property object name ;;
           r <- walk_opt w right ;;
           v <- lift_op left (arith (fun a b => Res (VNum (a - b))) old r) ;;
           set_property object name v ;;;
           ret v) ;
        case operator of "++" =>
          (old <- get_property object name ;;
           match to_number old with
           | Some n =>
               v <- lift_op left
                      (arith (fun a b => Res (VNum (a + b))) n (VNum 1)) ;;
               set_property object name v ;;;
               ret n
           | None => unmodelled
           end) ;
        case operator of "--" =>
          (old <- get_property object name ;;
           match to_number old with
           | Some n =>
               v <- lift_op left
                      (arith (fun a b => Res (VNum (a - b))) n (VNum 1)) ;;
               set_property object name v ;;;
               ret n
           | None => unmodelled
           end) ;
        ret VUndef
    end
  else ret VUndef.

(** The loop of the [ForStatement] case, after [walk(node.init)]; [count]
    is the state of this activation's [InfiniteChecker], [n] the budget of
    the embedding. *)
Fixpoint for_loop (w : node -> M value) (n : nat)
         (test update body : option node) (count : Z) : M value :=
  match n with
  | O => out_of_fuel
  | S n' =>
      t <- walk_opt w test ;;
      if truthy t then
        result <- walk_opt w body ;;
        match result with
        | VRet RContinue _ =>
            walk_opt w update ;;;
            for_loop w n' test update body count
        | VRet RBreak _ => ret VUndef
        | VRet RReturn _ => ret result
        | _ =>
            count' <- infinite_check ceiling count ;;
            walk_opt w update ;;;
            for_loop w n' test update body count'
        end
      else ret VUndef
  end.

(** The loop of the [ForInStatement] case over the keys still to visit. *)
Fixpoint for_in_loop (w : node -> M value) (context : loc)
         (property body : node) (keys : list string) (count : Z) : M value :=
  match keys with
  | [] => ret VUndef
  | key :: rest =>
      setValue w context property (Some (Literal (LStr key))) None ;;;
      result <- w body ;;
      match result with
      | VRet RContinue _ => for_in_loop w context property body rest count
      | VRet RBreak _ => ret VUndef
      | VRet RReturn _ => ret result
      | _ =>
          count' <- infinite_check ceiling count ;;
          for_in_loop w context property body rest count'
      end
  end.

(** The loop of the [WhileStatement] case. *)
Fixpoint while_loop (w : node -> M value) (n : nat)
         (test body : node) (count : Z) : M value :=
  match n with
  | O => out_of_fuel
  | S n' =>
      t <- w test ;;
      if truthy t then
        w body ;;;
        count' <- infinite_check ceiling count ;;
        while_loop w n' test body count'
      else ret VUndef
  end.

(** [node.declarations.forEach(...)] of the [VariableDeclaration] case *)
Fixpoint declare (w : node -> M value) (context : loc)
         (declarations : list (string * option node)) : M unit :=
  match declarations with
  | [] => ret tt
  | (name, init) :: rest =>
      v <- walk_opt w init ;;
      (if (name =? "__proto__")%string then unmodelled
       else write (fun h => set h context name v)) ;;;
      declare w context rest
  end.

(** The property loop of the [ObjectExpression] case *)
Fixpoint fill_object (w : node -> M value) (o : value)
         (properties : list (string * node)) : M unit :=
  match properties with
  | [] => ret tt
  | (key, value) :: rest =>
      v <- w value ;;
      match o with
      | VUndef | VNull => type_error
      | _ => set_property o key v
      end ;;;
      fill_object w o rest
  end.

(** The element loop of the [ArrayExpression] case *)
Fixpoint fill_array (w : node -> M value) (ev : node -> loc -> M value)
         (o : value) (elements : list node) : M unit :=
  match elements with
  | [] => ret tt
  | e :: rest =>
      m <- get_property o "push" ;;
      v <- w e ;;
      apply ev m o [v] ;;;
      fill_array w ev o rest
  end.

(** [var safeFunction = FunctionFactory(context)], then
    [var primitives = Primitives(context)], then [walk(tree)], given the
    [walk] to run.  The factory allocates its own child of [context]. *)
Definition evaluateAst_with (wk : value -> loc -> node -> M value)
           (tree : node) (context : loc) : M value :=
  fun h => let (f, h') := create h context in
           (install primitives context ;;;
            wk (VHost (HSafeFunction f)) context tree) h'.

(** [checkValue(value)] *)
Definition checkValue (safeFunction : value) (v : value) : value :=
  match v with
  | VHost HFunction => finalValue safeFunction
  | _ => finalValue v
  end.

(** [walk(node)] inside [evaluateAst(tree, context)]. *)
Fixpoint walk (fuel : nat) (safeFunction : value) (context : loc) (n : node)
         {struct fuel} : M value :=
  match fuel with
  | O => out_of_fuel
  | S fuel' =>
    let w := walk fuel' safeFunction context in
    let ev := evaluateAst_with (walk fuel') in
    match n with
    | Program body => walkAll w body VNull
    | BlockStatement body => walkAll w body VNull
    | FunctionDeclaration id params body =>
        if mem "__proto__" (id :: params) then unmodelled
        else
          let value := VClos params body context in
          write (fun h => set h context id value) ;;;
          ret value
    | FunctionExpression params body =>
        if mem "__proto__" params then unmodelled
        else ret (VClos params body context)
    | ReturnStatement argument =>
        value <- walk_opt w argument ;;
        ret (VRet RReturn value)
    | BreakStatement => ret (VRet RBreak VUndef)
    | ContinueStatement => ret (VRet RContinue VUndef)
    | ExpressionStatement expression => w expression
    | AssignmentExpression operator lhs rhs =>
        setValue w context lhs (Some rhs) (Some operator)
    | UpdateExpression operator argument =>
        setValue w context argument None (Some operator)
    | VariableDeclaration declarations =>
        declare w context declarations ;;;
        ret VUndef
    | IfStatement test consequent alternate =>
        t <- w test ;;
        if truthy t then w consequent
        else match alternate with
             | Some a => w a
             | None =>
                 (* no [return] and no [break]: control falls into the
                    ForStatement case, where this node has a [test] and
                    neither [init], [update] nor [body] *)
                 walk_opt w None ;;;
                 for_loop w fuel' (Some test) None None 0
             end
    | ForStatement init test update body =>
        walk_opt w init ;;;
        for_loop w fuel' test update (Some body) 0
    | ForInStatement lhs rhs body =>
        value <- w rhs ;;
        property <-
          match lhs with
          | VariableDeclaration declarations =>
              w lhs ;;;
              match declarations with
              | (name, _) :: _ => ret (Identifier name)
              | [] => type_error
              end
          | _ => ret lhs
          end ;;
        keys <- for_in_keys value ;;
        for_in_loop w context property body keys 0
    | WhileStatement test body => while_loop w fuel' test body 0
    | TryStatement block handlers finalizer =>
        try_catch_finally
          (w block ;;; ret tt)
          (fun error =>
             match handlers with
             | (param, body) :: _ =>
                 write (fun h => set h context param error) ;;;
                 w body ;;;
                 ret tt
             | [] => ret tt
             end)
          (match finalizer with
           | Some f => w f ;;; ret tt
           | None => ret tt
           end) ;;;
        ret VUndef
    | Literal value => ret (value_of_lit value)
    | UnaryExpression operator argument =>
        val <- w argument ;;
        lift_op n (unary operator val)
    | ArrayExpression elements =>
        ctor <- read (fun h => get h context "Array") ;;
        o <- apply ev ctor (VObj context) [] ;;
        fill_array w ev o elements ;;;
        ret o
    | ObjectExpression properties =>
        ctor <- read (fun h => get h context "Object") ;;
        o <- apply ev ctor (VObj context) [] ;;
        fill_object w o properties ;;;
        ret o
    | NewExpression callee arguments =>
        args <- walk_list w arguments ;;
        target <- w callee ;;
        applyNew primitives target args
    | BinaryExpression operator lhs rhs =>
        l <- w lhs ;;
        r <- w rhs ;;
        lift_op n (binary operator l r)
    | LogicalExpression operator lhs rhs =>
        case operator of "&&" =>
          (l <- w lhs ;; if truthy l then w rhs else ret l) ;
        case operator of "||" =>
          (l <- w lhs ;; if truthy l then ret l else w rhs) ;
        unsupportedExpression n
    | ThisExpression => read (fun h => get h context "this")
    | Identifier name =>
        if (name =? "__proto__")%string then unmodelled
        else read (fun h => finalValue (get h context name))
    | CallExpression callee arguments =>
        args <- walk_list w arguments ;;
        target <- w callee ;;
        object <- match callee with
                  | MemberExpression _ o _ => w o
                  | _ => ret VNull
                  end ;;
        apply ev target object args
    | MemberExpression computed object property =>
        obj <- w object ;;
        prop <- (if computed then w property
                 else match property with
                      | Identifier name => ret (VStr name)
                      | _ => unmodelled
                      end) ;;
        obj' <- read (fun h => getPropertyObject primitives h obj prop) ;;
        match to_string prop with
        | Some key => v <- get_property obj' key ;; ret (checkValue safeFunction v)
        | None => unmodelled
        end
    | ConditionalExpression test consequent alternate =>
        val <- w test ;;
        if truthy val then w consequent else w alternate
    | EmptyStatement | OtherNode _ => unsupportedExpression n
    end
  end.

(** [evaluateAst(tree, context)] *)
Definition evaluateAst (fuel : nat) (tree : node) (context : loc) : M value :=
  evaluateAst_with (walk fuel) tree context.

(** [safeEval(tree, parentContext)] on an already parsed and hoisted tree. *)
Definition safeEval (fuel : nat) (tree : node) (parentContext : loc) : M value :=
  context <- (fun h => let (c, h') := create h parentContext in Ok c h') ;;
  v <- evaluateAst fuel tree context ;;
  ret (finalValue v).

End Evaluator.

(** ** What a run amounts to for the embedder *)

Inductive completion :=
| Returns (v : value)
| Throws (e : value)
| NoAnswer.

Definition completion_of (o : outcome value) : completion :=
  match o with
  | Ok v _ => Returns v
  | Throw e _ => Throws e
  | _ => NoAnswer
  end.

Definition final_heap {A} (o : outcome A) : heap :=
  match o with
  | Ok _ h | Throw _ h => h
  | _ => []
  end.

Definition unary_operators : list string := ["+"; "-"; "~"; "!"; "typeof"].

Definition binary_operators : list string :=
  ["=="; "==="; "!="; "!=="; "+"; "-"; "*"; "/"; "%"; "<"; "<="; ">"; ">=";
   "|"; "&"; "^"; "instanceof"].

Definition logical_operators : list string := ["&&"; "||"].

(** ** A host environment to run guest programs in

    The global object, the prototypes of the sandbox's containers with
    their built-in (non-enumerable) methods, and a root scope exposing the
    two container constructors. *)
Module Sample.

Definition builtin (v : value) : entry := {| e_val := v; e_enum := false |}.
Definition plain (v : value) : entry := {| e_val := v; e_enum := true |}.

Definition root : loc := 3%nat.

Definition host_heap : heap :=
  [ {| o_proto := None; o_props := [] |};
    {| o_proto := None;
       o_props := [("toString", builtin (VHost (HBuiltin "toString")))] |};
    {| o_proto := Some object_prototype;
       o_props := [("push", builtin (VHost HPush))] |};
    {| o_proto := Some object_prototype;
       o_props := [("Object", plain (VHost HObject));
                   ("Array", plain (VHost HArray))] |} ].

Definition run (ceiling : Z) (fuel : nat) (tree : node) : outcome value :=
  safeEval spec_primitives ceiling fuel tree root host_heap.

Definition num (n : Z) : node := Literal (LNum n).
Definition var (x : string) (init : node) : node :=
  VariableDeclaration [(x, Some init)].
Definition assign (x : string) (e : node) : node :=
  ExpressionStatement (AssignmentExpression "=" (Identifier x) e).
Definition incr (x : string) : node := UpdateExpression "++" (Identifier x).
Definition less (a b : node) : node := BinaryExpression "<" a b.
Definition dot (o : node) (x : string) : node :=
  MemberExpression false o (Identifier x).

(** [var x = 0; try { <node of kind ThrowStatement> } catch (e) { x = 1 }; x] *)
Definition try_unsupported : node :=
  Program [ var "x" (num 0);
            TryStatement (BlockStatement [OtherNode "ThrowStatement"])
                         [("e", BlockStatement [assign "x" (num 1)])] None;
            ExpressionStatement (Identifier "x") ].

(** [var x = 0; try { while (true) {} } catch (e) { x = 1 }; x] *)
Definition try_endless : node :=
  Program [ var "x" (num 0);
            TryStatement
              (BlockStatement
                 [WhileStatement (Literal (LBool true)) (BlockStatement [])])
              [("e", BlockStatement [assign "x" (num 1)])] None;
            ExpressionStatement (Identifier "x") ].

(** [var i = 0; while (i < 3) { i++; return 7 }; i] *)
Definition while_return : node :=
  Program [ var "i" (num 0);
            WhileStatement (less (Identifier "i") (num 3))
              (BlockStatement [ExpressionStatement (incr "i");
                               ReturnStatement (Some (num 7))]);
            ExpressionStatement (Identifier "i") ].

(** The same loop written with [for]. *)
Definition for_return : node :=
  Program [ var "i" (num 0);
            ForStatement None (Some (less (Identifier "i") (num 3))) None
              (BlockStatement [ExpressionStatement (incr "i");
                               ReturnStatement (Some (num 7))]);
            ExpressionStatement (Identifier "i") ].

(** [var i = 0; while (i < 3) { i++; break }; i] *)
Definition while_break : node :=
  Program [ var "i" (num 0);
            WhileStatement (less (Identifier "i") (num 3))
              (BlockStatement [ExpressionStatement (incr "i"); BreakStatement]);
            ExpressionStatement (Identifier "i") ].

(** [var i = 0; if (i++ < 0) {}; i] *)
Definition if_once : node :=
  Program [ var "i" (num 0);
            IfStatement (less (incr "i") (num 0)) (BlockStatement []) None;
            ExpressionStatement (Identifier "i") ].

(** [var i = 0; if (i++ < 0) {} else {}; i] *)
Definition if_else_once : node :=
  Program [ var "i" (num 0);
            IfStatement (less (incr "i") (num 0)) (BlockStatement [])
                        (Some (BlockStatement []));
            ExpressionStatement (Identifier "i") ].

(** [var i = 0; if (i++ < 1) {}; i] *)
Definition if_taken : node :=
  Program [ var "i" (num 0);
            IfStatement (less (incr "i") (num 1)) (BlockStatement []) None;
            ExpressionStatement (Identifier "i") ].

(** [var i = 0; for (; i < 5; i++) { continue }; i] *)
Definition for_continue : node :=
  Program [ var "i" (num 0);
            ForStatement None (Some (less (Identifier "i") (num 5)))
                         (Some (incr "i")) (BlockStatement [ContinueStatement]);
            ExpressionStatement (Identifier "i") ].

(** [var i = 0; for (; i < 5; i++) { }; i] *)
Definition for_plain : node :=
  Program [ var "i" (num 0);
            ForStatement None (Some (less (Identifier "i") (num 5)))
                         (Some (incr "i")) (BlockStatement []);
            ExpressionStatement (Identifier "i") ].

(** [for (; true; ) { continue }] *)
Definition for_continue_forever : node :=
  ForStatement None (Some (Literal (LBool true))) None
               (BlockStatement [ContinueStatement]).

(** [var n = 0; for (var k in {a: 1, b: 2, c: 3}) { n++; continue }; n] *)
Definition for_in_continue : node :=
  Program [ var "n" (num 0);
            ForInStatement (VariableDeclaration [("k", None)])
              (ObjectExpression [("a", num 1); ("b", num 2); ("c", num 3)])
              (BlockStatement [ExpressionStatement (incr "n");
                               ContinueStatement]);
            ExpressionStatement (Identifier "n") ].

(** The same loop without [continue]. *)
Definition for_in_plain : node :=
  Program [ var "n" (num 0);
            ForInStatement (VariableDeclaration [("k", None)])
              (ObjectExpression [("a", num 1); ("b", num 2); ("c", num 3)])
              (BlockStatement [ExpressionStatement (incr "n")]);
            ExpressionStatement (Identifier "n") ].

(** [function f(a, b) { return b }; f(1)] *)
Definition missing_argument : node :=
  Program [ FunctionDeclaration "f" ["a"; "b"]
              (BlockStatement [ReturnStatement (Some (Identifier "b"))]);
            ExpressionStatement (CallExpression (Identifier "f") [num 1]) ].

(** [var b = 5; function f(a, b) { return b }; f(1)] *)
Definition missing_argument_shadowed : node :=
  Program [ var "b" (num 5);
            FunctionDeclaration "f" ["a"; "b"]
              (BlockStatement [ReturnStatement (Some (Identifier "b"))]);
            ExpressionStatement (CallExpression (Identifier "f") [num 1]) ].

(** [var b = 5; function f(a, b) { return b }; f(1, 2)] *)
Definition supplied_argument_shadowed : node :=
  Program [ var "b" (num 5);
            FunctionDeclaration "f" ["a"; "b"]
              (BlockStatement [ReturnStatement (Some (Identifier "b"))]);
            ExpressionStatement
              (CallExpression (Identifier "f") [num 1; num 2]) ].

(** [var o = {toString: 1}; o.toString = 2; o.toString] *)
Definition shadowed_builtin : node :=
  Program [ var "o" (ObjectExpression [("toString", num 1)]);
            ExpressionStatement
              (AssignmentExpression "=" (dot (Identifier "o") "toString") (num 2));
            ExpressionStatement (dot (Identifier "o") "toString") ].

(** [var o = {}; o.toString = 2; typeof o.toString] *)
Definition inherited_builtin : node :=
  Program [ var "o" (ObjectExpression []);
            ExpressionStatement
              (AssignmentExpression "=" (dot (Identifier "o") "toString") (num 2));
            ExpressionStatement
              (UnaryExpression "typeof" (dot (Identifier "o") "toString")) ].

(** [var o = {f: function () { return this }}; o.f() === o] *)
Definition method_call : node :=
  Program [ var "o" (ObjectExpression
                       [("f", FunctionExpression []
                                (BlockStatement
                                   [ReturnStatement (Some ThisExpression)]))]);
            ExpressionStatement
              (BinaryExpression "===" (CallExpression (dot (Identifier "o") "f") [])
                                (Identifier "o")) ].

(** [function f() { return this }; f()] *)
Definition bare_call : node :=
  Program [ FunctionDeclaration "f" []
              (BlockStatement [ReturnStatement (Some ThisExpression)]);
            ExpressionStatement (CallExpression (Identifier "f") []) ].

(** A scope chain whose outer frame holds a built-in [x]: the global
    object, an outermost frame, a middle frame with a non-enumerable [x],
    and the current frame. *)
Definition outermost : loc := 1%nat.
Definition middle : loc := 2%nat.
Definition current : loc := 3%nat.

Definition chain_heap : heap :=
  [ {| o_proto := None; o_props := [] |};
    {| o_proto := None; o_props := [] |};
    {| o_proto := Some outermost; o_props := [("x", builtin (VNum 0))] |};
    {| o_proto := Some middle; o_props := [] |} ].

(** The host heap after [var o = {toString: 1}] in the root scope: the
    object is at [shadowing]. *)
Definition shadowing : loc := 4%nat.

Definition shadow_heap : heap :=
  [ {| o_proto := None; o_props := [] |};
    {| o_proto := None;
       o_props := [("toString", builtin (VHost (HBuiltin "toString")))] |};
    {| o_proto := Some object_prototype;
       o_props := [("push", builtin (VHost HPush))] |};
    {| o_proto := Some object_prototype;
       o_props := [("Object", plain (VHost HObject));
                   ("Array", plain (VHost HArray));
                   ("o", plain (VObj 4%nat))] |};
    {| o_proto := Some object_prototype;
       o_props := [("toString", plain (VNum 1))] |} ].

(** [toString = 5; typeof toString] *)
Definition assign_builtin : node :=
  Program [ assign "toString" (num 5);
            ExpressionStatement (UnaryExpression "typeof" (Identifier "toString")) ].


End Sample.

(** The enumerable flag of the first own entry for [property] met on the
    way up from [object] through its prototypes, if there is one. *)
Fixpoint nearest_entry (d : nat) (P : Primitives) (h : heap)
         (object : value) (property : string) : option bool :=
  if not_nullish object then
    if own h object property then Some (own_enumerable h object property)
    else match d with
         | O => None
         | S d' => nearest_entry d' P h (getPrototypeOf P h object) property
         end
  else None.

(** Whether some object on the way up from [object] holds [property] as a
    non-enumerable own entry. *)
Fixpoint somewhere_non_enumerable (d : nat) (P : Primitives) (h : heap)
         (object : value) (property : string) : bool :=
  if not_nullish object then
    (own h object property && negb (own_enumerable h object property))
    || match d with
       | O => false
       | S d' => somewhere_non_enumerable d' P h (getPrototypeOf P h object)
                                          property
       end
  else false.

(** The mutations the guard denies. *)
Definition denied (P : Primitives) (h : heap) (object : value)
           (property : string) : Prop :=
  property = "__proto__" \/
  isPrimative P object = true \/
  nearest_entry (S (List.length h)) P h object property = Some false.

(** The frames reached from [l] through the prototype links, nearest
    first. *)
Fixpoint chain_from (d : nat) (h : heap) (l : loc) : list loc :=
  l :: match d with
       | O => []
       | S d' =>
           match get_obj h l with
           | Some {| o_proto := Some p |} => chain_from d' h p
           | _ => []
           end
       end.

Definition scope_chain (h : heap) (l : loc) : list loc :=
  chain_from (List.length h) h l.

(** The value of the own entry [key] of the object at [l], if any. *)
Definition own_val (h : heap) (l : loc) (key : string) : option value :=
  match get_obj h l with
  | Some o => option_map e_val (assoc key (o_props o))
  | None => None
  end.

(** Tests on nodes and results used to state what blocks and loops do. *)
Definition is_empty (n : node) : bool :=
  match n with
  | EmptyStatement => true
  | _ => false
  end.

Definition is_signal (v : value) : bool :=
  match v with
  | VRet _ _ => true
  | _ => false
  end.

(** A run that ended in a signal or in a failure. *)
Definition cut_short (o : outcome value) : bool :=
  match o with
  | Ok v _ => is_signal v
  | Throw _ _ => true
  | _ => false
  end.

(** The only results a loop statement hands to its caller. *)
Definition loop_result (v : value) : bool :=
  match v with
  | VUndef | VRet RReturn _ => true
  | _ => false
  end.

(** The operators [setValue] has a case for. *)
Definition assignment_operators : list string := ["="; "+="; "-="; "++"; "--"].

(** [for (; x < bound; x++) {}] *)
Definition counting_loop (x : string) (bound : Z) : node :=
  ForStatement None
               (Some (BinaryExpression "<" (Identifier x) (Literal (LNum bound))))
               (Some (UpdateExpression "++" (Identifier x)))
               (BlockStatement []).

(** The prototype link of the object at [l]. *)
Definition proto_of (h : heap) (l : loc) : option loc :=
  match get_obj h l with
  | Some o => o_proto o
  | None => None
  end.



(** The heap after the global write and the binding made for one
    argument. *)
Definition bind_one (context : loc) (params : list string) (idx : nat)
           (arg : value) (h : heap) : heap :=
  let h1 := if Nat.eqb context global then h
            else set h global "param"
                     (match nth_error params idx with
                      | Some param => VStr param
                      | None => VUndef
                      end) in
  match nth_error params idx with
  | Some param => if (param =? "")%string then h1 else set h1 context param arg
  | None => h1
  end.

(** The finalizer of a try statement as [walk] runs it, and what is left
    of a try statement once its catch clause has taken the error:
    [try { body } finally { finalizer }], with undefined as result. *)
Definition run_finalizer (w : node -> M value) (finalizer : option node)
  : M unit :=
  match finalizer with
  | Some f => w f ;;; ret tt
  | None => ret tt
  end.

Definition handler_then_finalizer (w : node -> M value) (body : node)
           (finalizer : option node) : M value :=
  try_catch_finally (w body ;;; ret tt) (fun error => throw error)
                    (run_finalizer w finalizer) ;;;
  ret VUndef.

(** The two errors the evaluator itself raises. *)
Definition unsupported_error : value := VErr "Unsupported expression".

Definition guard_error : value :=
  VErr "Infinite loop detected - reached max iterations".


(** * Properties *)

(** ** Operators *)

Lemma unary_default (operator : string) (val : value) :
  mem operator unary_operators = false -> unary operator val = Unsupported.
Proof.
  unfold mem, unary_operators; simpl; intros H.
  repeat (apply orb_false_elim in H; destruct H as [?E H]).
  unfold unary. now rewrite E, E0, E1, E2, E3.
Qed.

Lemma binary_default (operator : string) (l r : value) :
  mem operator binary_operators = false -> binary operator l r = Unsupported.
Proof.
  unfold mem, binary_operators; simpl; intros H.
  repeat (apply orb_false_elim in H; destruct H as [?E H]).
  unfold binary.
  repeat match goal with
         | E : String.eqb operator _ = false |- _ => rewrite E; clear E
         end.
  reflexivity.
Qed.

(** C10: the guest [==] is evaluated as the host's strict equality and the
    guest [!=] as the host's loose inequality, whatever the operands
    evaluate to.  The two are therefore not complements: for a number and
    a string that converts to that number, such as 1 and "1", both
    [l == r] and [l != r] evaluate to false. *)
Theorem eq_is_strict_and_neq_is_loose
        P ceiling fuel safeFunction context lhs rhs l r h h1 h2 :
  walk P ceiling fuel safeFunction context lhs h = Ok l h1 ->
  walk P ceiling fuel safeFunction context rhs h1 = Ok r h2 ->
  walk P ceiling (S fuel) safeFunction context
       (BinaryExpression "==" lhs rhs) h
  = match strict_equal l r with
    | Some b => Ok (VBool b) h2
    | None => Unmodelled
    end /\
  walk P ceiling (S fuel) safeFunction context
       (BinaryExpression "!=" lhs rhs) h
  = match loose_equal l r with
    | Some b => Ok (VBool (negb b)) h2
    | None => Unmodelled
    end /\
  (forall a s,
      l = VNum a -> r = VStr s -> to_number (VStr s) = Some (VNum a) ->
      walk P ceiling (S fuel) safeFunction context
           (BinaryExpression "==" lhs rhs) h = Ok (VBool false) h2 /\
      walk P ceiling (S fuel) safeFunction context
           (BinaryExpression "!=" lhs rhs) h = Ok (VBool false) h2).
Proof.
  intros Hl Hr.
  assert (Eeq : walk P ceiling (S fuel) safeFunction context
                     (BinaryExpression "==" lhs rhs) h
                = match strict_equal l r with
                  | Some b => Ok (VBool b) h2
                  | None => Unmodelled
                  end).
  { cbn [walk]. unfold bind. rewrite Hl, Hr. cbn.
    destruct (strict_equal l r); reflexivity. }
  assert (Ene : walk P ceiling (S fuel) safeFunction context
                     (BinaryExpression "!=" lhs rhs) h
                = match loose_equal l r with
                  | Some b => Ok (VBool (negb b)) h2
                  | None => Unmodelled
                  end).
  { cbn [walk]. unfold bind. rewrite Hl, Hr. cbn.
    destruct (loose_equal l r); reflexivity. }
  repeat apply conj; [exact Eeq | exact Ene |].
  intros a s -> -> Hs. split; [rewrite Eeq | rewrite Ene].
  - reflexivity.
  - cbn [loose_equal is_primitive_value]. rewrite Hs. cbn [to_number].
    now rewrite Z.eqb_refl.
Qed.

Lemma eq_is_strict_and_neq_is_loose_witness :
  walk spec_primitives maxIterations 2 VUndef Sample.root
       (BinaryExpression "==" (Literal (LNum 1)) (Literal (LStr "1")))
       Sample.host_heap = Ok (VBool false) Sample.host_heap /\
  walk spec_primitives maxIterations 2 VUndef Sample.root
       (BinaryExpression "!=" (Literal (LNum 1)) (Literal (LStr "1")))
       Sample.host_heap = Ok (VBool false) Sample.host_heap.
Proof.
  apply (proj2 (proj2 (eq_is_strict_and_neq_is_loose
                         spec_primitives maxIterations 1 VUndef Sample.root
                         (Literal (LNum 1)) (Literal (LStr "1"))
                         (VNum 1) (VStr "1")
                         Sample.host_heap Sample.host_heap Sample.host_heap
                         eq_refl eq_refl))
               1 "1" eq_refl eq_refl eq_refl).
Defined.

(** ** Failures and the guest's exception handling *)


(** Whatever the guarded block throws, a catch clause takes it: the
    parameter is bound to the error and the handler runs, then the
    finalizer. *)
Lemma try_catches_any
      P ceiling fuel safeFunction context block param body hs finalizer
      h error h1 :
  walk P ceiling fuel safeFunction context block h = Throw error h1 ->
  walk P ceiling (S fuel) safeFunction context
       (TryStatement block ((param, body) :: hs) finalizer) h
  = handler_then_finalizer (walk P ceiling fuel safeFunction context)
                           body finalizer (set h1 context param error).
Proof.
  intros Hb. cbn [walk].
  unfold handler_then_finalizer, run_finalizer, try_catch_finally,
    bind, write, ret.
  rewrite Hb.
  destruct (walk P ceiling fuel safeFunction context body _);
    try reflexivity.
Qed.

(** Without a catch clause the error is dropped once the finalizer has
    run. *)
Lemma try_drops_any
      P ceiling fuel safeFunction context block finalizer h error h1 :
  walk P ceiling fuel safeFunction context block h = Throw error h1 ->
  walk P ceiling (S fuel) safeFunction context
       (TryStatement block [] finalizer) h
  = (run_finalizer (walk P ceiling fuel safeFunction context) finalizer ;;;
     ret VUndef) h1.
Proof.
  intros Hb. cbn [walk].
  unfold run_finalizer, try_catch_finally, bind, ret. rewrite Hb.
  destruct finalizer as [f|]; [|reflexivity].
  destruct (walk P ceiling fuel safeFunction context f h1); reflexivity.
Qed.

(** C8 (as amended): a node whose kind has no case in [walk], an empty
    statement walked on its own included, and a unary, binary or logical
    operator outside the supported ones make [walk] throw the
    "Unsupported expression" error at once.  That error is an ordinary
    host exception: a guest try statement whose guarded block raises it
    catches it; with a catch clause the handler runs with its parameter
    bound to the error, then the finalizer, and without one the error is
    dropped after the finalizer. *)
Theorem unsupported_throws_and_is_catchable
        P ceiling fuel safeFunction context h :
  let w := walk P ceiling fuel safeFunction context in
  let stmt := walk P ceiling (S fuel) safeFunction context in
  (forall t, stmt (OtherNode t) h = Throw unsupported_error h) /\
  stmt EmptyStatement h = Throw unsupported_error h /\
  (forall operator argument v h1,
      mem operator unary_operators = false ->
      w argument h = Ok v h1 ->
      stmt (UnaryExpression operator argument) h
      = Throw unsupported_error h1) /\
  (forall operator lhs rhs l r h1 h2,
      mem operator binary_operators = false ->
      w lhs h = Ok l h1 ->
      w rhs h1 = Ok r h2 ->
      stmt (BinaryExpression operator lhs rhs) h
      = Throw unsupported_error h2) /\
  (forall operator lhs rhs,
      mem operator logical_operators = false ->
      stmt (LogicalExpression operator lhs rhs) h
      = Throw unsupported_error h) /\
  (forall block h1 param body hs finalizer,
      w block h = Throw unsupported_error h1 ->
      param <> "__proto__" ->
      stmt (TryStatement block ((param, body) :: hs) finalizer) h
      = handler_then_finalizer w body finalizer
                               (set h1 context param unsupported_error)) /\
  (forall block h1 finalizer,
      w block h = Throw unsupported_error h1 ->
      stmt (TryStatement block [] finalizer) h
      = (run_finalizer w finalizer ;;; ret VUndef) h1).
Proof.
  intros w stmt. unfold w, stmt. repeat apply conj.
  - reflexivity.
  - reflexivity.
  - intros operator argument v h1 Hop Ha. cbn [walk]. unfold bind.
    rewrite Ha, (unary_default _ _ Hop). reflexivity.
  - intros operator lhs rhs l r h1 h2 Hop Hl Hr. cbn [walk]. unfold bind.
    rewrite Hl, Hr, (binary_default _ _ _ Hop). reflexivity.
  - intros operator lhs rhs Hop. cbn [walk].
    unfold mem, logical_operators in Hop; simpl in Hop.
    repeat (apply orb_false_elim in Hop; destruct Hop as [?E Hop]).
    now rewrite E, E0.
  - intros. now apply try_catches_any.
  - intros. now apply try_drops_any with (error := unsupported_error).
Qed.

Lemma unsupported_throws_and_is_catchable_witness :
  walk spec_primitives maxIterations 4 VUndef Sample.root
       (TryStatement (BlockStatement [OtherNode "ThrowStatement"])
                     [("e", BlockStatement [])] None)
       Sample.host_heap
  = handler_then_finalizer
      (walk spec_primitives maxIterations 3 VUndef Sample.root)
      (BlockStatement []) None
      (set Sample.host_heap Sample.root "e" unsupported_error).
Proof.
  apply (proj1 (proj2 (proj2 (proj2 (proj2 (proj2
           (unsupported_throws_and_is_catchable
              spec_primitives maxIterations 3 VUndef Sample.root
              Sample.host_heap))))))
           (BlockStatement [OtherNode "ThrowStatement"]) Sample.host_heap
           "e" (BlockStatement []) [] None);
    [reflexivity | discriminate].
Defined.

(** C8 (as stated): the unsupported-construct failure raised inside a
    guarded block does not abort the evaluation; the handler runs and the
    program goes on to return 1. *)
Lemma unsupported_is_caught_by_guest :
  completion_of (Sample.run maxIterations 10 Sample.try_unsupported)
  = Returns (VNum 1) /\
  completion_of (Sample.run maxIterations 10 Sample.try_unsupported)
  <> Throws unsupported_error.
Proof.
  assert (E : completion_of (Sample.run maxIterations 10 Sample.try_unsupported)
              = Returns (VNum 1)) by (vm_compute; reflexivity).
  split; [exact E | rewrite E; discriminate].
Qed.






(** ** Loops and control signals *)

(** A while loop hands back [undefined] whatever its body evaluated to. *)
Lemma while_loop_result ceiling w test body :
  forall n count h,
    match while_loop ceiling w n test body count h with
    | Ok v _ => v = VUndef
    | _ => True
    end.
Proof.
  induction n as [|n IH]; intros count h; cbn [while_loop]; [exact I|].
  unfold bind at 1. destruct (w test h) as [t h1| | |]; try exact I.
  destruct (truthy t); [|reflexivity].
  unfold bind at 1. destruct (w body h1) as [b h2| | |]; try exact I.
  unfold bind at 1, infinite_check.
  destruct (ceiling <? count + 1); [exact I|]. apply IH.
Qed.

(** C1: what the while loop does with the signal of its body.  The body's
    result is dropped, so the statement never yields a signal; on
    [var i = 0; while (i < 3) { i++; return 7 }; i] the loop runs to the
    end of its test and the program yields 3, where the same loop written
    with [for] returns 7; a [break] in the body does not leave the loop
    either. *)
Theorem while_drops_the_body_signal :
  (forall P ceiling fuel safeFunction context test body h,
      match walk P ceiling fuel safeFunction context
                 (WhileStatement test body) h with
      | Ok v _ => v = VUndef
      | _ => True
      end) /\
  completion_of (Sample.run maxIterations 20 Sample.while_return)
  = Returns (VNum 3) /\
  completion_of (Sample.run maxIterations 20 Sample.for_return)
  = Returns (VNum 7) /\
  completion_of (Sample.run maxIterations 20 Sample.while_break)
  = Returns (VNum 3).
Proof.
  split; [|repeat apply conj; vm_compute; reflexivity].
  intros. destruct fuel as [|fuel]; [exact I|].
  cbn [walk]. apply while_loop_result.
Qed.

(** C5: an if statement whose test is falsy and which has no alternate
    falls into the for-loop case, which evaluates the test again (and keeps
    doing so for as long as it is truthy).  On
    [var i = 0; if (i++ < 0) {}; i] the test runs twice and the program
    yields 2; with an empty [else] it runs once. *)
Theorem if_without_alternate_falls_through :
  (forall P ceiling fuel safeFunction context test consequent h,
      walk P ceiling (S fuel) safeFunction context
           (IfStatement test consequent None) h
      = (t <- walk P ceiling fuel safeFunction context test ;;
         if truthy t
         then walk P ceiling fuel safeFunction context consequent
         else for_loop ceiling (walk P ceiling fuel safeFunction context) fuel
                       (Some test) None None 0) h) /\
  completion_of (Sample.run maxIterations 20 Sample.if_once)
  = Returns (VNum 2) /\
  completion_of (Sample.run maxIterations 20 Sample.if_else_once)
  = Returns (VNum 1) /\
  completion_of (Sample.run maxIterations 20 Sample.if_taken)
  = Returns (VNum 1).
Proof.
  split; [|repeat apply conj; vm_compute; reflexivity].
  intros. cbn [walk]. unfold bind.
  destruct (walk P ceiling fuel safeFunction context test h) as [t h1| | |];
    reflexivity.
Qed.

Lemma continue_loop_never_ends P ceiling fuel safeFunction context :
  forall n count h,
    for_loop ceiling (walk P ceiling fuel safeFunction context) n
             (Some (Literal (LBool true))) None
             (Some (BlockStatement [ContinueStatement])) count h
    = OutOfFuel.
Proof.
  induction n as [|n IH]; intros count h; cbn [for_loop]; [reflexivity|].
  destruct fuel as [|[|fuel]]; try reflexivity.
  unfold bind at 1. cbn [walk_opt walk ret truthy].
  unfold bind at 1. cbn [walk_opt walk walkAll bind ret].
  unfold bind at 1. cbn [walk ret]. unfold bind at 1. cbn [walk_opt ret].
  apply IH.
Qed.

(** C6: the loop guard is not consulted on an iteration that ends with a
    Continue signal.  [for (; true; ) { continue }] never aborts: whatever
    the ceiling, no amount of fuel brings the walk to an answer.  With a
    ceiling of 2, a for loop and a for-in loop whose bodies end in
    [continue] run 5 and 3 times and complete, where the same loops
    without [continue] abort. *)
Theorem continue_skips_the_loop_guard :
  (forall P ceiling fuel safeFunction context h,
      walk P ceiling fuel safeFunction context Sample.for_continue_forever h
      = OutOfFuel) /\
  completion_of (Sample.run 2 30 Sample.for_continue) = Returns (VNum 5) /\
  completion_of (Sample.run 2 30 Sample.for_plain) = Throws guard_error /\
  completion_of (Sample.run 2 30 Sample.for_in_continue) = Returns (VNum 3) /\
  completion_of (Sample.run 2 30 Sample.for_in_plain) = Throws guard_error.
Proof.
  split; [|repeat apply conj; vm_compute; reflexivity].
  intros. destruct fuel as [|fuel]; [reflexivity|].
  unfold Sample.for_continue_forever. cbn [walk].
  unfold bind at 1. cbn [walk_opt ret].
  apply continue_loop_never_ends.
Qed.

(** ** Denied writes *)

Lemma nearest_non_enumerable_cannot_set P h property :
  forall d object,
    nearest_entry d P h object property = Some false ->
    canSetProperty_from d P h object property = false.
Proof.
  induction d as [|d IH]; intros object; cbn [nearest_entry canSetProperty_from];
    destruct ((property =? "__proto__")%string || isPrimative P object);
    try reflexivity;
    destruct (not_nullish object); try discriminate;
    destruct (own h object property); try discriminate.
  - intros [= ->]. reflexivity.
  - intros [= ->]. reflexivity.
  - apply IH.
Qed.

Lemma denied_cannot_set P h object property :
  denied P h object property -> canSetProperty P h object property = false.
Proof.
  unfold canSetProperty. intros [-> | [Hp | Hn]].
  - reflexivity.
  - cbn [canSetProperty_from]. rewrite Hp, orb_true_r. reflexivity.
  - now apply nearest_non_enumerable_cannot_set.
Qed.

Lemma setValue_denied P w context left right operator h name object h1 :
  resolve_target P w context left h = Ok (name, object) h1 ->
  canSetProperty P h1 object name = false ->
  setValue P w context left right operator h = Ok VUndef h1.
Proof.
  intros Ht Hc. unfold setValue, bind at 1. rewrite Ht.
  unfold bind at 1, read. cbn [fst snd]. now rewrite Hc.
Qed.

(** C7 (as amended): a write is denied when the property is named
    [__proto__], when the target is a primitive, or when the first own
    entry for the property met on the way up the prototype chain of the
    target is non-enumerable.  A denied assignment or update is silent:
    once the target is known, nothing more is evaluated, no failure is
    raised, the result is undefined and the heap is left as it was. *)
Theorem denied_write_is_silent
        P ceiling fuel safeFunction context lhs h name object h1 :
  resolve_target P (walk P ceiling fuel safeFunction context) context lhs h
  = Ok (name, object) h1 ->
  denied P h1 object name ->
  (forall operator rhs,
      walk P ceiling (S fuel) safeFunction context
           (AssignmentExpression operator lhs rhs) h = Ok VUndef h1) /\
  (forall operator,
      walk P ceiling (S fuel) safeFunction context
           (UpdateExpression operator lhs) h = Ok VUndef h1).
Proof.
  intros Ht Hd. apply denied_cannot_set in Hd.
  split; intros; cbn [walk]; now apply setValue_denied with (name := name) (object := object).
Qed.

Lemma denied_write_is_silent_witness :
  walk spec_primitives maxIterations 3 VUndef Sample.root
       (AssignmentExpression "=" (Identifier "toString") (Literal (LNum 5)))
       Sample.host_heap
  = Ok VUndef Sample.host_heap.
Proof.
  apply (proj1 (denied_write_is_silent
                  spec_primitives maxIterations 2 VUndef Sample.root
                  (Identifier "toString") Sample.host_heap
                  "toString" (VObj object_prototype) Sample.host_heap
                  eq_refl (or_intror (or_intror eq_refl)))).
Defined.

(** C7 (as stated): a property that exists as a non-enumerable entry
    further up the prototype chain can still be written when the object
    holds an enumerable own entry of that name.  After
    [var o = {toString: 1}], the assignment [o.toString = 2] is allowed
    and changes the value. *)
Lemma shadowed_builtin_is_written :
  let h := Sample.shadow_heap in
  let o := VObj Sample.shadowing in
  let r := walk spec_primitives maxIterations 5 VUndef Sample.root
                (AssignmentExpression "=" (Sample.dot (Identifier "o") "toString")
                                      (Literal (LNum 2))) h in
  somewhere_non_enumerable (S (List.length h)) spec_primitives h o "toString"
  = true /\
  canSetProperty spec_primitives h o "toString" = true /\
  get h Sample.shadowing "toString" = VNum 1 /\
  completion_of r = Returns (VNum 2) /\
  get (final_heap r) Sample.shadowing "toString" = VNum 2 /\
  completion_of (Sample.run maxIterations 20 Sample.shadowed_builtin)
  = Returns (VNum 2).
Proof.
  repeat apply conj; vm_compute; reflexivity.
Qed.

(** ** Assignment to a name *)

Lemma objectForKey_selects h name :
  forall d l,
  exists pre t post,
    chain_from d h l = pre ++ t :: post /\
    objectForKey_from d spec_primitives h (VObj l) name = VObj t /\
    Forall (fun f => hasOwnProperty h f name = false) pre /\
    (hasOwnProperty h t name = true \/ post = []).
Proof.
  induction d as [|d IH]; intros l.
  - exists [], l, []. cbn.
    destruct (_ || _); repeat split; auto.
  - cbn [chain_from objectForKey_from spec_primitives getPrototypeOf own].
    destruct (get_obj h l) as [[[p|] props]|] eqn:El;
      try (exists [], l, []; repeat split; auto; fail).
    cbn [truthy negb orb].
    destruct (hasOwnProperty h l name) eqn:Eo.
    + exists [], l, (chain_from d h p). repeat split; auto.
    + destruct (IH p) as (pre & t & post & Hc & Ht & Hp & Hl).
      exists (l :: pre), t, post. rewrite Hc. repeat split; auto.
Qed.

Lemma own_non_enumerable_cannot_set P h object name :
  own h object name = true ->
  own_enumerable h object name = false ->
  canSetProperty P h object name = false.
Proof.
  intros Ho He. unfold canSetProperty. cbn [canSetProperty_from].
  destruct (_ || _); [reflexivity|].
  destruct (not_nullish object) eqn:En.
  - now rewrite Ho, He.
  - destruct object; discriminate.
Qed.

(** C3 (as amended): an assignment to a simple identifier is aimed at the
    first frame, going outward, that holds the name as an own entry,
    enumerable or not, and at the outermost frame when no frame holds it;
    the write is made there, and only if the write-permission check allows
    it; an own non-enumerable entry at the selected frame suppresses the
    assignment. *)
Theorem assignment_targets_first_owner_or_outermost :
  (forall h context name,
      exists pre t post,
        scope_chain h context = pre ++ t :: post /\
        objectForKey spec_primitives h (VObj context) name = VObj t /\
        Forall (fun f => hasOwnProperty h f name = false) pre /\
        (hasOwnProperty h t name = true \/ post = [])) /\
  (forall P ceiling fuel safeFunction context name rhs h,
      walk P ceiling (S fuel) safeFunction context
           (AssignmentExpression "=" (Identifier name) rhs) h
      = let target := objectForKey P h (VObj context) name in
        if canSetProperty P h target name
        then (v <- walk P ceiling fuel safeFunction context rhs ;;
              set_property target name v ;;;
              ret v) h
        else Ok VUndef h) /\
  (forall P h target name,
      own h target name = true ->
      own_enumerable h target name = false ->
      canSetProperty P h target name = false).
Proof.
  repeat apply conj.
  - intros. apply objectForKey_selects.
  - intros. cbn [walk]. unfold setValue, resolve_target.
    unfold bind at 1, read. unfold bind at 1. cbn [fst snd].
    destruct (canSetProperty P h _ name); reflexivity.
  - intros. now apply own_non_enumerable_cannot_set.
Qed.

Lemma assignment_targets_first_owner_or_outermost_witness :
  canSetProperty spec_primitives Sample.chain_heap (VObj Sample.middle) "x"
  = false.
Proof.
  apply (proj2 (proj2 assignment_targets_first_owner_or_outermost)
           spec_primitives Sample.chain_heap (VObj Sample.middle) "x");
    reflexivity.
Defined.

(** C3 (as stated): with a non-enumerable [x] in an enclosing frame, no
    frame holds [x] as an enumerable own entry, yet [x = 1] creates nothing
    in the current frame: the assignment is suppressed and the heap is
    unchanged.  A name held by no frame is aimed at the outermost frame,
    not the current one.  In a guest program: [toString = 5] leaves
    [toString] the inherited built-in. *)
Lemma assignment_suppressed_by_outer_builtin :
  let h := Sample.chain_heap in
  let r := walk spec_primitives maxIterations 3 VUndef Sample.current
                (AssignmentExpression "=" (Identifier "x") (Literal (LNum 1)))
                h in
  forallb (fun f => negb (propertyIsEnumerable h f "x"))
          (scope_chain h Sample.current) = true /\
  completion_of r = Returns VUndef /\
  final_heap r = h /\
  hasOwnProperty (final_heap r) Sample.current "x" = false /\
  objectForKey spec_primitives h (VObj Sample.current) "y"
  = VObj Sample.outermost /\
  completion_of (Sample.run maxIterations 20 Sample.assign_builtin)
  = Returns (VStr "function").
Proof.
  repeat apply conj; vm_compute; reflexivity.
Qed.

(** ** Heap lemmas *)

Lemma get_own h l key v : own_val h l key = Some v -> get h l key = v.
Proof.
  unfold own_val, get. cbn [get_from].
  destruct (get_obj h l) as [o|]; [|discriminate].
  destruct (assoc key (o_props o)); [|discriminate].
  now intros [= <-].
Qed.

Lemma nth_error_set_nth_same {A} (l : list A) n x :
  (n < List.length l)%nat -> nth_error (set_nth l n x) n = Some x.
Proof.
  revert n; induction l as [|a l IH]; intros [|n] H; cbn in *; try lia; auto.
  apply IH; lia.
Qed.

Lemma nth_error_set_nth_other {A} (l : list A) n m x :
  n <> m -> nth_error (set_nth l n x) m = nth_error l m.
Proof.
  revert n m; induction l as [|a l IH]; intros [|n] [|m] H; cbn; auto; try lia.
Qed.

Lemma assoc_put_same k v props :
  option_map e_val (assoc k (put k v props)) = Some v.
Proof.
  induction props as [|[k' e] props IH]; cbn.
  - now rewrite String.eqb_refl.
  - destruct (String.eqb k k') eqn:E; cbn; rewrite E; auto.
Qed.

Lemma assoc_put_other k k' v props :
  k <> k' -> assoc k' (put k v props) = assoc k' props.
Proof.
  intros Hk. induction props as [|[k0 e] props IH]; cbn.
  - destruct (String.eqb k' k) eqn:E; auto.
    apply String.eqb_eq in E. congruence.
  - destruct (String.eqb k k0) eqn:E; cbn.
    + apply String.eqb_eq in E; subst k0.
      destruct (String.eqb k' k) eqn:E'; auto.
      apply String.eqb_eq in E'. congruence.
    + now rewrite IH.
Qed.

Lemma own_val_set_same h l k v :
  (l < List.length h)%nat -> own_val (set h l k v) l k = Some v.
Proof.
  intros Hl. unfold own_val, set, get_obj.
  destruct (nth_error h l) as [o|] eqn:E.
  - rewrite nth_error_set_nth_same by assumption. cbn. apply assoc_put_same.
  - apply nth_error_None in E. lia.
Qed.

Lemma own_val_set_other h l l' k k' v :
  k <> k' -> own_val (set h l k v) l' k' = own_val h l' k'.
Proof.
  intros Hk. unfold own_val, set, get_obj.
  destruct (nth_error h l) as [o|] eqn:E; [|reflexivity].
  destruct (Nat.eq_dec l l') as [<-|Hl].
  - destruct (Nat.lt_ge_cases l (List.length h)) as [Hlt|Hge].
    + rewrite nth_error_set_nth_same, E by assumption. cbn.
      now rewrite assoc_put_other.
    + apply nth_error_None in Hge. congruence.
  - now rewrite nth_error_set_nth_other.
Qed.

Lemma length_set_nth {A} (l : list A) n x :
  List.length (set_nth l n x) = List.length l.
Proof. revert n; induction l; intros [|n]; cbn; auto. Qed.

Lemma length_set h l k v : List.length (set h l k v) = List.length h.
Proof.
  unfold set. destruct (get_obj h l); [apply length_set_nth | reflexivity].
Qed.

Lemma own_val_alloc h o l k :
  (l < List.length h)%nat -> own_val (h ++ [o]) l k = own_val h l k.
Proof.
  intros Hl. unfold own_val, get_obj. now rewrite nth_error_app1.
Qed.

Lemma own_val_set_other_loc h l l' k k' v :
  l <> l' -> own_val (set h l k v) l' k' = own_val h l' k'.
Proof.
  intros Hl. unfold own_val, set, get_obj.
  destruct (nth_error h l); [|reflexivity].
  now rewrite nth_error_set_nth_other.
Qed.

Lemma bind_params_step context params arg rest idx h :
  bind_params context params (arg :: rest) idx h
  = bind_params context params rest (S idx) (bind_one context params idx arg h).
Proof.
  cbn [bind_params]. unfold bind_one, bind, set_global, write, ret.
  destruct (nth_error params idx) as [param|]; [|reflexivity].
  destruct (String.eqb param ""); reflexivity.
Qed.

Lemma own_val_global_write context key v h k :
  own_val (if Nat.eqb context global then h else set h global key v) context k
  = own_val h context k.
Proof.
  destruct (Nat.eqb context global) eqn:E; [reflexivity|].
  apply Nat.eqb_neq in E. apply own_val_set_other_loc. congruence.
Qed.

Lemma bind_one_other_key context params idx arg h key :
  nth_error params idx <> Some key ->
  own_val (bind_one context params idx arg h) context key
  = own_val h context key.
Proof.
  intros Hk. unfold bind_one.
  destruct (nth_error params idx) as [param|].
  - destruct (String.eqb param "").
    + apply own_val_global_write.
    + rewrite own_val_set_other by congruence. apply own_val_global_write.
  - apply own_val_global_write.
Qed.

Lemma bind_params_keeps context params key :
  ~ In key params ->
  forall args idx h,
  exists h',
    bind_params context params args idx h = Ok tt h' /\
    own_val h' context key = own_val h context key.
Proof.
  intros Hk. induction args as [|arg args IH]; intros idx h.
  - now exists h.
  - rewrite bind_params_step.
    destruct (IH (S idx) (bind_one context params idx arg h)) as (h' & -> & Ho).
    exists h'. split; [reflexivity|]. rewrite Ho.
    apply bind_one_other_key. intros E. apply Hk.
    eapply nth_error_In; eauto.
Qed.

(** ** Calls *)

Lemma not_among_supplied (params : list string) (n : nat) (key : string) :
  ~ In key (firstn n params) ->
  forall j, (j < n)%nat -> nth_error params (0 + j) <> Some key.
Proof.
  intros Hk j Hj E. apply Hk. cbn in E.
  assert (Hlt : (j < List.length params)%nat)
    by (apply nth_error_Some; congruence).
  rewrite <- (firstn_skipn n params) in E.
  rewrite nth_error_app1 in E by (rewrite length_firstn; lia).
  eapply nth_error_In; eauto.
Qed.

Lemma bind_params_writes_supplied context params key :
  forall args idx h,
    (forall j, (j < List.length args)%nat ->
               nth_error params (idx + j) <> Some key) ->
    exists h',
      bind_params context params args idx h = Ok tt h' /\
      own_val h' context key = own_val h context key.
Proof.
  induction args as [|arg args IH]; intros idx h Hk.
  - now exists h.
  - assert (Hrest : forall j, (j < List.length args)%nat ->
                              nth_error params (S idx + j) <> Some key).
    { intros j Hj. replace (S idx + j)%nat with (idx + S j)%nat by lia.
      apply Hk. cbn. lia. }
    rewrite bind_params_step.
    destruct (IH (S idx) (bind_one context params idx arg h) Hrest)
      as (h' & -> & Ho).
    exists h'. split; [reflexivity|]. rewrite Ho.
    apply bind_one_other_key.
    specialize (Hk 0%nat ltac:(cbn; lia)). now rewrite Nat.add_0_r in Hk.
Qed.


(** X17: a parameter beyond the supplied arguments gets no entry in the frame
    of the call. *)
Lemma unsupplied_parameter_has_no_entry
      ev body params parentContext object args h key :
  key <> "this" -> key <> "arguments" ->
  ~ In key (firstn (List.length args) params) ->
  exists hb,
    apply ev (VClos params body parentContext) object args h
    = (result <- ev body (List.length h) ;;
       match result with
       | VRet _ v => ret v
       | _ => ret VUndef
       end) hb /\
    own_val hb (List.length h) key = None.
Proof.
  intros Ht Ha Hk. cbn [apply]. unfold call_function.
  unfold bind at 1. unfold create, alloc.
  unfold bind at 1, write.
  unfold bind at 1, new_array, alloc.
  unfold bind at 1.
  unfold bind at 1.
  match goal with
  | |- context [bind_params ?c ?ps ?as_ ?i ?hh] =>
      destruct (bind_params_writes_supplied c ps key as_ i hh)
        as (hb & Hb & Ho)
  end.
  { now apply not_among_supplied. }
  rewrite Hb. exists hb. split; [reflexivity|].
  rewrite Ho.
  rewrite own_val_set_other by congruence.
  rewrite own_val_alloc
    by (rewrite length_set, length_app; cbn; lia).
  rewrite own_val_set_other by congruence.
  unfold own_val, get_obj. rewrite nth_error_app2 by lia.
  now rewrite Nat.sub_diag.
Qed.

(** C4: parameters are bound by going through the arguments, so a
    parameter without an argument gets no entry in the call's frame and a
    read of it goes on to the enclosing scopes.
    [function f(a, b) { return b }; f(1)] yields undefined, but after
    [var b = 5] the same call yields 5. *)
Theorem missing_parameter_reads_outer_scope :
  completion_of (Sample.run maxIterations 20 Sample.missing_argument)
  = Returns VUndef /\
  completion_of (Sample.run maxIterations 20 Sample.missing_argument_shadowed)
  = Returns (VNum 5) /\
  completion_of (Sample.run maxIterations 20 Sample.supplied_argument_shadowed)
  = Returns (VNum 2).
Proof.
  repeat apply conj; vm_compute; reflexivity.
Qed.

(** * Further properties of the evaluator *)




(** The two call shapes in guest programs: [o.f()] runs [f] with [this]
    the object [o], and a bare [f()] runs it with [this] null. *)
Lemma this_in_guest_calls :
  completion_of (Sample.run maxIterations 20 Sample.method_call)
  = Returns (VBool true) /\
  completion_of (Sample.run maxIterations 20 Sample.bare_call)
  = Returns VNull.
Proof.
  split; vm_compute; reflexivity.
Qed.

(** ** Blocks *)

(** X1: empty statements are never walked: a block evaluates as the block
    without them. *)
Theorem walkAll_skips_empty_statements w :
  forall nodes result h,
    walkAll w nodes result h
    = walkAll w (filter (fun n => negb (is_empty n)) nodes) result h.
Proof.
  induction nodes as [|n nodes IH]; intros result h; [reflexivity|].
  destruct n; cbn [filter is_empty negb walkAll]; try apply IH;
    unfold bind; destruct (w _ h) as [r h1| | |]; try reflexivity;
    destruct r; try reflexivity; apply IH.
Qed.

Lemma walkAll_cut_short w post :
  forall pre result h,
    is_signal result = false ->
    cut_short (walkAll w pre result h) = true ->
    walkAll w (pre ++ post) result h = walkAll w pre result h.
Proof.
  induction pre as [|n pre IH]; intros result h Hr Hc.
  - cbn in Hc. congruence.
  - assert (Hstep : forall r h1, w n h = Ok r h1 ->
              cut_short (match r with
                         | VRet _ _ => ret r
                         | _ => walkAll w pre r
                         end h1) = true ->
              match r with
              | VRet _ _ => ret r
              | _ => walkAll w (pre ++ post) r
              end h1
              = match r with
                | VRet _ _ => ret r
                | _ => walkAll w pre r
                end h1).
    { intros r h1 _ H. destruct r; try reflexivity; now apply IH. }
    cbn [app].
    destruct n; cbn [walkAll] in *; try (now apply IH);
      unfold bind in *; destruct (w _ h) as [r h1| | |] eqn:E;
      try reflexivity; now apply Hstep.
Qed.

(** X2: a signal or a failure ends a block: the statements after the one that
    produced it are not evaluated, whatever they are. *)
Theorem block_stops_at_signal_or_failure
        P ceiling fuel safeFunction context pre post h :
  cut_short (walk P ceiling (S fuel) safeFunction context
                  (BlockStatement pre) h) = true ->
  walk P ceiling (S fuel) safeFunction context (BlockStatement (pre ++ post)) h
  = walk P ceiling (S fuel) safeFunction context (BlockStatement pre) h.
Proof.
  cbn [walk]. intros Hc. now apply walkAll_cut_short.
Qed.

Lemma block_stops_at_signal_or_failure_witness :
  walk spec_primitives maxIterations 3 VUndef Sample.root
       (BlockStatement ([BreakStatement] ++ [OtherNode "SwitchStatement"]))
       Sample.host_heap
  = walk spec_primitives maxIterations 3 VUndef Sample.root
         (BlockStatement [BreakStatement]) Sample.host_heap.
Proof.
  apply (block_stops_at_signal_or_failure
           spec_primitives maxIterations 2 VUndef Sample.root
           [BreakStatement] [OtherNode "SwitchStatement"] Sample.host_heap).
  reflexivity.
Defined.

(** ** The entry point *)

Lemma walkAll_empty_statements w result h :
  forall n, walkAll w (repeat EmptyStatement n) result h = Ok result h.
Proof. induction n as [|n IH]; [reflexivity | exact IH]. Qed.

(** X3: whenever the call [Primitives(context)] completes, [safeEval] on a
    program made of one literal returns that literal, and on a program of
    empty statements only, the empty program included, it returns null. *)
Theorem safeEval_literal_and_empty P ceiling fuel parentContext h :
  (forall context h0, exists h1, install P context h0 = Ok tt h1) ->
  (forall l,
      completion_of
        (safeEval P ceiling (S (S (S fuel)))
                  (Program [ExpressionStatement (Literal l)]) parentContext h)
      = Returns (value_of_lit l)) /\
  (forall n,
      completion_of
        (safeEval P ceiling (S fuel) (Program (repeat EmptyStatement n))
                  parentContext h)
      = Returns VNull).
Proof.
  intros Hi. split; [intros l | intros n];
    unfold safeEval, evaluateAst, evaluateAst_with, bind at 1, create, alloc;
    unfold bind at 1, alloc; unfold bind at 1;
    match goal with
    | |- context [install P ?c ?hh] =>
        destruct (Hi c hh) as (h1 & ->)
    end.
  - cbn [walk walkAll]. unfold bind, ret. cbn [walk ret].
    destruct l; reflexivity.
  - cbn [walk]. now rewrite walkAll_empty_statements.
Qed.

Lemma safeEval_literal_and_empty_witness :
  completion_of
    (safeEval spec_primitives maxIterations 3
              (Program [ExpressionStatement (Literal (LNum 42))])
              Sample.root Sample.host_heap)
  = Returns (value_of_lit (LNum 42)).
Proof.
  apply (proj1 (safeEval_literal_and_empty
                  spec_primitives maxIterations 0 Sample.root Sample.host_heap
                  (fun context h0 => ex_intro _ _ eq_refl))).
Defined.

(** ** Loop statements *)

Lemma for_loop_result ceiling w test update body :
  forall n count h,
    match for_loop ceiling w n test update body count h with
    | Ok v _ => loop_result v = true
    | _ => True
    end.
Proof.
  induction n as [|n IH]; intros count h; cbn [for_loop]; [exact I|].
  unfold bind at 1. destruct (walk_opt w test h) as [t h1| | |]; try exact I.
  destruct (truthy t); [|reflexivity].
  unfold bind at 1. destruct (walk_opt w body h1) as [r h2| | |]; try exact I.
  assert (Hcheck : match (count' <- infinite_check ceiling count ;;
                          walk_opt w update ;;;
                          for_loop ceiling w n test update body count') h2 with
                   | Ok v _ => loop_result v = true
                   | _ => True
                   end).
  { unfold bind at 1, infinite_check.
    destruct (ceiling <? count + 1); [exact I|]. unfold ret.
    unfold bind at 1. destruct (walk_opt w update h2); try exact I. apply IH. }
  destruct r; try exact Hcheck.
  destruct type; try reflexivity.
  unfold bind at 1. destruct (walk_opt w update h2); try exact I. apply IH.
Qed.

Lemma for_in_loop_result P ceiling w context property body :
  forall keys count h,
    match for_in_loop P ceiling w context property body keys count h with
    | Ok v _ => loop_result v = true
    | _ => True
    end.
Proof.
  induction keys as [|key keys IH]; intros count h; cbn [for_in_loop];
    [reflexivity|].
  unfold bind at 1.
  destruct (setValue P w context property _ None h) as [s h1| | |]; try exact I.
  unfold bind at 1. destruct (w body h1) as [r h2| | |]; try exact I.
  assert (Hcheck : match (count' <- infinite_check ceiling count ;;
                          for_in_loop P ceiling w context property body keys
                                      count') h2 with
                   | Ok v _ => loop_result v = true
                   | _ => True
                   end).
  { unfold bind at 1, infinite_check.
    destruct (ceiling <? count + 1); [exact I|]. unfold ret. apply IH. }
  destruct r; try exact Hcheck.
  destruct type; try reflexivity. apply IH.
Qed.

(** X4: a for loop and a for-in loop consume the Break and Continue signals of
    their body: the statement yields undefined or a Return signal, never
    anything else. *)
Theorem for_loops_consume_break_and_continue
        P ceiling fuel safeFunction context h :
  (forall init test update body,
      match walk P ceiling fuel safeFunction context
                 (ForStatement init test update body) h with
      | Ok v _ => loop_result v = true
      | _ => True
      end) /\
  (forall lhs rhs body,
      match walk P ceiling fuel safeFunction context
                 (ForInStatement lhs rhs body) h with
      | Ok v _ => loop_result v = true
      | _ => True
      end).
Proof.
  destruct fuel as [|fuel]; [split; intros; exact I|].
  split; intros; cbn [walk].
  - unfold bind at 1. destruct (walk_opt _ init h); try exact I.
    apply for_loop_result.
  - unfold bind at 1.
    destruct (walk P ceiling fuel safeFunction context rhs h) as [v h1| | |];
      try exact I.
    unfold bind at 1.
    match goal with
    | |- context [match ?m h1 with _ => _ end] =>
        destruct (m h1) as [p h2| | |]; try exact I
    end.
    unfold bind at 1. destruct (for_in_keys v h2) as [keys h3| | |]; try exact I.
    apply for_in_loop_result.
Qed.

(** X5: a for statement without a test runs its initialiser and nothing else:
    [walk(undefined)] is undefined, which is falsy, so [for (;;)] does not
    loop. *)
Theorem for_without_test_does_not_loop
        P ceiling fuel safeFunction context init update body h :
  walk P ceiling (S (S fuel)) safeFunction context
       (ForStatement init None update body) h
  = (walk_opt (walk P ceiling (S fuel) safeFunction context) init ;;;
     ret VUndef) h.
Proof.
  cbn [walk for_loop walk_opt]. unfold bind.
  destruct init as [i|]; [|reflexivity].
  destruct (walk P ceiling (S fuel) safeFunction context i h); reflexivity.
Qed.

(** ** Exception handling *)

(** X6: a try statement yields undefined whenever it completes: the result of
    the guarded block, a signal included, is dropped, so a [return] inside
    [try] does not leave the enclosing function. *)
Theorem try_statement_yields_undefined
        P ceiling fuel safeFunction context block handlers finalizer h :
  match walk P ceiling fuel safeFunction context
             (TryStatement block handlers finalizer) h with
  | Ok v _ => v = VUndef
  | _ => True
  end.
Proof.
  destruct fuel as [|fuel]; [exact I|]. cbn [walk].
  unfold bind at 1.
  destruct (try_catch_finally _ _ _ h); try exact I. reflexivity.
Qed.



(** ** Operators *)

(** X8: [&&] and [||] short-circuit: when the left operand decides, it is the
    result and the right operand is not evaluated. *)
Theorem logical_operators_short_circuit
        P ceiling fuel safeFunction context lhs rhs l h h1 :
  walk P ceiling fuel safeFunction context lhs h = Ok l h1 ->
  (truthy l = false ->
   walk P ceiling (S fuel) safeFunction context
        (LogicalExpression "&&" lhs rhs) h = Ok l h1) /\
  (truthy l = true ->
   walk P ceiling (S fuel) safeFunction context
        (LogicalExpression "||" lhs rhs) h = Ok l h1) /\
  (truthy l = true ->
   walk P ceiling (S fuel) safeFunction context
        (LogicalExpression "&&" lhs rhs) h
   = walk P ceiling fuel safeFunction context rhs h1) /\
  (truthy l = false ->
   walk P ceiling (S fuel) safeFunction context
        (LogicalExpression "||" lhs rhs) h
   = walk P ceiling fuel safeFunction context rhs h1).
Proof.
  intros Hl. repeat apply conj; intros Ht; cbn [walk]; cbn; unfold bind;
    rewrite Hl, Ht; reflexivity.
Qed.

Lemma logical_operators_short_circuit_witness :
  walk spec_primitives maxIterations 3 VUndef Sample.root
       (LogicalExpression "&&" (Literal (LNum 0)) (OtherNode "ThrowStatement"))
       Sample.host_heap
  = Ok (VNum 0) Sample.host_heap.
Proof.
  apply (proj1 (logical_operators_short_circuit
                  spec_primitives maxIterations 2 VUndef Sample.root
                  (Literal (LNum 0)) (OtherNode "ThrowStatement") (VNum 0)
                  Sample.host_heap Sample.host_heap eq_refl)).
  reflexivity.
Defined.

(** ** Declarations, assignments and reads *)

(** X10: an assignment or update operator without a case in [setValue] is not
    an error: once the target is resolved nothing is evaluated or written
    and the expression yields undefined. *)
Theorem unknown_assignment_operator_is_ignored
        P ceiling fuel safeFunction context operator lhs h name object h1 :
  mem operator assignment_operators = false ->
  resolve_target P (walk P ceiling fuel safeFunction context) context lhs h
  = Ok (name, object) h1 ->
  (forall rhs,
      walk P ceiling (S fuel) safeFunction context
           (AssignmentExpression operator lhs rhs) h = Ok VUndef h1) /\
  walk P ceiling (S fuel) safeFunction context (UpdateExpression operator lhs) h
  = Ok VUndef h1.
Proof.
  unfold mem, assignment_operators; cbn [existsb]. intros Hop Ht.
  repeat (apply orb_false_elim in Hop; destruct Hop as [?E Hop]).
  split; intros; cbn [walk]; unfold setValue, bind at 1; rewrite Ht;
    unfold bind at 1, read; cbn [fst snd];
    rewrite E, E0, E1, E2, E3;
    destruct (canSetProperty P h1 object name); reflexivity.
Qed.

Lemma unknown_assignment_operator_is_ignored_witness :
  walk spec_primitives maxIterations 3 VUndef Sample.root
       (AssignmentExpression "*=" (Identifier "Array") (OtherNode "ThrowStatement"))
       Sample.host_heap
  = Ok VUndef Sample.host_heap.
Proof.
  apply (proj1 (unknown_assignment_operator_is_ignored
                  spec_primitives maxIterations 2 VUndef Sample.root "*="
                  (Identifier "Array") Sample.host_heap "Array"
                  (VObj Sample.root) Sample.host_heap eq_refl eq_refl)).
Defined.

Lemma own_val_has_own h l key v :
  own_val h l key = Some v -> hasOwnProperty h l key = true.
Proof.
  unfold own_val, hasOwnProperty. destruct (get_obj h l); [|discriminate].
  destruct (assoc key (o_props o)); [reflexivity | discriminate].
Qed.

Lemma has_own_valid h l key :
  hasOwnProperty h l key = true -> (l < List.length h)%nat.
Proof.
  unfold hasOwnProperty, get_obj. intros H. apply nth_error_Some.
  destruct (nth_error h l); [discriminate | discriminate].
Qed.

Lemma read_identifier P ceiling fuel safeFunction context name h :
  name <> "__proto__" ->
  walk P ceiling (S fuel) safeFunction context (Identifier name) h
  = Ok (finalValue (get h context name)) h.
Proof.
  intros Hn. apply String.eqb_neq in Hn. cbn [walk]. now rewrite Hn.
Qed.

(** X11: a declaration of a name other than [__proto__] writes into the
    current frame and the name then reads back as the declared value;
    without an initialiser the name reads as undefined, whatever an
    enclosing scope binds it to. *)
Theorem declaration_then_read
        P ceiling fuel safeFunction context name h :
  name <> "__proto__" ->
  (context < List.length h)%nat ->
  (forall init v h1,
      walk P ceiling fuel safeFunction context init h = Ok v h1 ->
      (context < List.length h1)%nat ->
      let h2 := set h1 context name v in
      walk P ceiling (S fuel) safeFunction context
           (VariableDeclaration [(name, Some init)]) h = Ok VUndef h2 /\
      walk P ceiling (S fuel) safeFunction context (Identifier name) h2
      = Ok (finalValue v) h2) /\
  (let h2 := set h context name VUndef in
   walk P ceiling (S fuel) safeFunction context
        (VariableDeclaration [(name, None)]) h = Ok VUndef h2 /\
   walk P ceiling (S fuel) safeFunction context (Identifier name) h2
   = Ok VUndef h2).
Proof.
  intros Hn Hc. pose proof Hn as Hneq. apply String.eqb_neq in Hneq. split.
  - intros init v h1 Hi Hc1 h2. split.
    + cbn [walk declare walk_opt]. unfold bind, write, ret.
      now rewrite Hi, Hneq.
    + rewrite read_identifier by assumption. unfold h2.
      now rewrite (get_own _ _ _ _ (own_val_set_same h1 context name v Hc1)).
  - intros h2. split.
    + cbn [walk declare walk_opt]. unfold bind, write, ret. now rewrite Hneq.
    + rewrite read_identifier by assumption. unfold h2.
      now rewrite (get_own _ _ _ _ (own_val_set_same h context name VUndef Hc)).
Qed.

Lemma declaration_then_read_witness :
  walk spec_primitives maxIterations 3 VUndef Sample.root (Identifier "Array")
       (set Sample.host_heap Sample.root "Array" VUndef)
  = Ok VUndef (set Sample.host_heap Sample.root "Array" VUndef).
Proof.
  apply (proj2 (declaration_then_read
                  spec_primitives maxIterations 2 VUndef Sample.root "Array"
                  Sample.host_heap ltac:(discriminate) ltac:(vm_compute; lia))).
Defined.

Lemma own_enumerable_target P h context name :
  hasOwnProperty h context name = true ->
  propertyIsEnumerable h context name = true ->
  name <> "__proto__" ->
  isPrimative P (VObj context) = false ->
  objectForKey P h (VObj context) name = VObj context /\
  canSetProperty P h (VObj context) name = true.
Proof.
  intros Ho He Hn Hp. split.
  - unfold objectForKey. destruct (List.length h); cbn [objectForKey_from own];
      now rewrite Ho, orb_true_r.
  - unfold canSetProperty. cbn [canSetProperty_from own own_enumerable not_nullish].
    apply String.eqb_neq in Hn. now rewrite Hn, Hp, Ho, He.
Qed.

(** X12: an assignment to a name that the current frame holds as an enumerable
    own entry writes the value of the right-hand side there, yields that
    value, and the name then reads back as it. *)
Theorem assignment_then_read
        P ceiling fuel safeFunction context name rhs v h h1 :
  hasOwnProperty h context name = true ->
  propertyIsEnumerable h context name = true ->
  name <> "__proto__" ->
  isPrimative P (VObj context) = false ->
  walk P ceiling fuel safeFunction context rhs h = Ok v h1 ->
  (context < List.length h1)%nat ->
  let h2 := set h1 context name v in
  walk P ceiling (S fuel) safeFunction context
       (AssignmentExpression "=" (Identifier name) rhs) h = Ok v h2 /\
  walk P ceiling (S fuel) safeFunction context (Identifier name) h2
  = Ok (finalValue v) h2.
Proof.
  intros Ho He Hn Hp Hr Hc h2.
  destruct (own_enumerable_target P h context name Ho He Hn Hp) as [Ht Hcan].
  split.
  - cbn [walk]. unfold setValue, resolve_target.
    unfold bind at 1, read. unfold bind at 1. cbn [fst snd].
    rewrite Ht, Hcan. cbn. unfold bind at 1. cbn [walk_opt]. rewrite Hr.
    unfold bind, set_property, write, ret.
    apply String.eqb_neq in Hn. now rewrite Hn.
  - rewrite read_identifier by assumption. unfold h2.
    now rewrite (get_own _ _ _ _ (own_val_set_same h1 context name v Hc)).
Qed.

Lemma assignment_then_read_witness :
  walk spec_primitives maxIterations 3 VUndef Sample.root
       (AssignmentExpression "=" (Identifier "Array") (Literal (LNum 7)))
       Sample.host_heap
  = Ok (VNum 7) (set Sample.host_heap Sample.root "Array" (VNum 7)).
Proof.
  apply (assignment_then_read
           spec_primitives maxIterations 2 VUndef Sample.root "Array"
           (Literal (LNum 7)) (VNum 7) Sample.host_heap Sample.host_heap);
    try reflexivity; [discriminate | vm_compute; lia].
Defined.

Lemma safe_between a b n :
  safe a = true -> safe b = true -> a <= n <= b -> safe n = true.
Proof.
  unfold safe. intros Ha Hb Hn.
  apply andb_prop in Ha, Hb. destruct Ha as [Ha _], Hb as [_ Hb].
  apply Z.leb_le in Ha, Hb.
  apply andb_true_intro. split; apply Z.leb_le; lia.
Qed.

Lemma safe_one : safe 1 = true.
Proof. reflexivity. Qed.

(** X13: on a variable of the current frame that holds a number [n] a
    double holds exactly, [x++] and [x--] store [n + 1] and [n - 1], when
    these are in that range too, and yield [n]; [x += e] and [x -= e]
    read the variable before [e] is evaluated and yield the stored sum or
    difference, under the same proviso. *)
Theorem update_and_compound_assignment
        P ceiling fuel safeFunction context name n h :
  own_val h context name = Some (VNum n) ->
  propertyIsEnumerable h context name = true ->
  name <> "__proto__" ->
  isPrimative P (VObj context) = false ->
  safe n = true ->
  (safe (n + 1) = true ->
   walk P ceiling (S fuel) safeFunction context
        (UpdateExpression "++" (Identifier name)) h
   = Ok (VNum n) (set h context name (VNum (n + 1)))) /\
  (safe (n - 1) = true ->
   walk P ceiling (S fuel) safeFunction context
        (UpdateExpression "--" (Identifier name)) h
   = Ok (VNum n) (set h context name (VNum (n - 1)))) /\
  (forall rhs m h1,
      walk P ceiling fuel safeFunction context rhs h = Ok (VNum m) h1 ->
      safe m = true ->
      (safe (n + m) = true ->
       walk P ceiling (S fuel) safeFunction context
            (AssignmentExpression "+=" (Identifier name) rhs) h
       = Ok (VNum (n + m)) (set h1 context name (VNum (n + m)))) /\
      (safe (n - m) = true ->
       walk P ceiling (S fuel) safeFunction context
            (AssignmentExpression "-=" (Identifier name) rhs) h
       = Ok (VNum (n - m)) (set h1 context name (VNum (n - m))))).
Proof.
  intros Hv He Hn Hp Hs.
  pose proof (own_val_has_own _ _ _ _ Hv) as Ho.
  destruct (own_enumerable_target P h context name Ho He Hn Hp) as [Ht Hcan].
  pose proof (get_own _ _ _ _ Hv) as Hg.
  apply String.eqb_neq in Hn.
  repeat apply conj; intros; repeat apply conj; intros;
    cbn [walk]; unfold setValue, resolve_target;
    unfold bind at 1, read; unfold bind at 1; cbn [fst snd];
    rewrite Ht, Hcan; cbn -[get set safe];
    unfold bind at 1, get_property, read; rewrite Hn, Hg; cbn -[get set safe].
  - rewrite Hs, safe_one. cbn [andb].
    match goal with H : safe (n + 1) = true |- _ => rewrite H end.
    cbn -[get set safe]. unfold bind, set_property, write, ret. now rewrite Hn.
  - rewrite Hs, safe_one. cbn [andb].
    match goal with H : safe (n - 1) = true |- _ => rewrite H end.
    cbn -[get set safe]. unfold bind, set_property, write, ret. now rewrite Hn.
  - unfold bind at 1.
    match goal with H : walk _ _ _ _ _ _ _ = _ |- _ => rewrite H end.
    cbn -[get set safe].
    repeat match goal with H : safe _ = true |- _ => rewrite H; clear H end.
    cbn -[get set safe]. unfold bind, set_property, write, ret. now rewrite Hn.
  - unfold bind at 1.
    match goal with H : walk _ _ _ _ _ _ _ = _ |- _ => rewrite H end.
    cbn -[get set safe].
    repeat match goal with H : safe _ = true |- _ => rewrite H; clear H end.
    cbn -[get set safe]. unfold bind, set_property, write, ret. now rewrite Hn.
Qed.

Lemma update_and_compound_assignment_witness :
  walk spec_primitives maxIterations 3 VUndef Sample.shadowing
       (UpdateExpression "++" (Identifier "toString")) Sample.shadow_heap
  = Ok (VNum 1) (set Sample.shadow_heap Sample.shadowing "toString" (VNum 2)).
Proof.
  apply (proj1 (update_and_compound_assignment
                  spec_primitives maxIterations 2 VUndef Sample.shadowing
                  "toString" 1 Sample.shadow_heap
                  eq_refl eq_refl ltac:(discriminate) eq_refl eq_refl)
               eq_refl).
Defined.
(** ** The loop guard *)

Lemma enumerable_set_same h l key v :
  hasOwnProperty h l key = true ->
  propertyIsEnumerable (set h l key v) l key = propertyIsEnumerable h l key.
Proof.
  intros Ho. pose proof (has_own_valid _ _ _ Ho) as Hl.
  unfold hasOwnProperty in Ho. unfold propertyIsEnumerable, set, get_obj in *.
  destruct (nth_error h l) as [o|] eqn:E; [|discriminate].
  rewrite nth_error_set_nth_same by assumption. cbn.
  clear E. induction (o_props o) as [|[k e] props IH]; [discriminate|].
  cbn in *. destruct (String.eqb key k) eqn:Ek; cbn; rewrite Ek; auto.
Qed.

Lemma increment_variable P ceiling fuel safeFunction context name n h :
  own_val h context name = Some (VNum n) ->
  propertyIsEnumerable h context name = true ->
  name <> "__proto__" ->
  isPrimative P (VObj context) = false ->
  safe n = true ->
  safe (n + 1) = true ->
  walk P ceiling (S fuel) safeFunction context
       (UpdateExpression "++" (Identifier name)) h
  = Ok (VNum n) (set h context name (VNum (n + 1))).
Proof.
  intros Hv He Hn Hp Hs Hs1.
  pose proof (own_val_has_own _ _ _ _ Hv) as Ho.
  destruct (own_enumerable_target P h context name Ho He Hn Hp) as [Ht Hcan].
  pose proof (get_own _ _ _ _ Hv) as Hg.
  apply String.eqb_neq in Hn.
  cbn [walk]. unfold setValue, resolve_target.
  unfold bind at 1, read. unfold bind at 1. cbn [fst snd].
  rewrite Ht, Hcan. cbn -[get set safe].
  unfold bind at 1, get_property, read. rewrite Hn, Hg. cbn -[get set safe].
  rewrite Hs, safe_one. cbn [andb]. rewrite Hs1. cbn -[get set safe].
  unfold bind, set_property, write, ret. now rewrite Hn.
Qed.

Lemma counting_loop_runs P ceiling fuel safeFunction context x bound :
  0 <= ceiling ->
  x <> "__proto__" ->
  isPrimative P (VObj context) = false ->
  safe bound = true ->
  forall m k count h n,
    m = Z.to_nat (bound - k) ->
    safe k = true ->
    k <= bound ->
    0 <= count <= ceiling ->
    (m < n)%nat ->
    own_val h context x = Some (VNum k) ->
    propertyIsEnumerable h context x = true ->
    exists h',
      for_loop ceiling (walk P ceiling (S (S fuel)) safeFunction context) n
               (Some (BinaryExpression "<" (Identifier x) (Literal (LNum bound))))
               (Some (UpdateExpression "++" (Identifier x)))
               (Some (BlockStatement [])) count h
      = (if bound - k <=? ceiling - count
         then Ok VUndef h' else Throw guard_error h') /\
      own_val h' context x = Some (VNum (Z.min bound (k + (ceiling - count)))) /\
      propertyIsEnumerable h' context x = true.
Proof.
  intros Hceil Hx Hp Hsb.
  pose proof Hx as Hxb. apply String.eqb_neq in Hxb.
  induction m as [|m IH]; intros k count h n Hm Hsk Hk Hcount Hn Hv He;
    (destruct n as [|n]; [lia|]); cbn [for_loop];
    unfold bind at 1; cbn [walk_opt];
    assert (Htest : walk P ceiling (S (S fuel)) safeFunction context
                         (BinaryExpression "<" (Identifier x) (Literal (LNum bound))) h
                    = Ok (VBool (k <? bound)) h)
      by (cbn [walk]; unfold bind, read; rewrite Hxb, (get_own _ _ _ _ Hv);
          cbn -[safe]; now rewrite Hsk, Hsb);
    rewrite Htest; cbn [truthy].
  - assert (k = bound) by lia. subst k. rewrite Z.ltb_irrefl.
    exists h. replace (bound - bound <=? ceiling - count) with true
      by (symmetry; apply Z.leb_le; lia).
    rewrite Z.min_l by lia. auto.
  - assert (Hlt : k < bound) by lia.
    replace (k <? bound) with true by (symmetry; apply Z.ltb_lt; lia).
    unfold bind at 1. cbn [walk_opt].
    replace (walk P ceiling (S (S fuel)) safeFunction context
                  (BlockStatement []) h) with (Ok VNull h) by reflexivity.
    unfold bind at 1, infinite_check.
    destruct (ceiling <? count + 1) eqn:Ec.
    + apply Z.ltb_lt in Ec. exists h.
      replace (bound - k <=? ceiling - count) with false
        by (symmetry; apply Z.leb_gt; lia).
      rewrite Z.min_r by lia. replace (k + (ceiling - count)) with k by lia.
      auto.
    + apply Z.ltb_ge in Ec. unfold ret. unfold bind at 1. cbn [walk_opt].
      assert (Hsk1 : safe (k + 1) = true)
        by (apply (safe_between k bound); auto; lia).
      rewrite (increment_variable
                 P ceiling (S fuel) safeFunction context x k h Hv He Hx Hp
                 Hsk Hsk1).
      pose proof (own_val_has_own _ _ _ _ Hv) as Ho.
      destruct (IH (k + 1) (count + 1) (set h context x (VNum (k + 1))) n)
        as (h' & Hrun & Hv' & He'); try lia; try assumption.
      * apply own_val_set_same. eapply has_own_valid; eauto.
      * now rewrite enumerable_set_same.
      * exists h'. rewrite Hrun.
        replace (bound - (k + 1) <=? ceiling - (count + 1))
          with (bound - k <=? ceiling - count)
          by (destruct (Z.leb_spec (bound - k) (ceiling - count));
              symmetry; [apply Z.leb_le | apply Z.leb_gt]; lia).
        replace (k + 1 + (ceiling - (count + 1))) with (k + (ceiling - count))
          in Hv' by lia.
        auto.
Qed.

(** X14: the loop guard allows exactly [ceiling] iterations: for numbers
    [k] and [bound] that a double holds exactly, the loop
    [for (; x < bound; x++) {}] started with [x] at [k] completes, leaving
    [x] at [bound], when it needs at most [ceiling] iterations, and
    otherwise fails with the guard's error after [ceiling] updates of
    [x]. *)
Theorem loop_guard_allows_ceiling_iterations
        P ceiling fuel safeFunction context x k bound h :
  0 <= ceiling ->
  x <> "__proto__" ->
  isPrimative P (VObj context) = false ->
  own_val h context x = Some (VNum k) ->
  propertyIsEnumerable h context x = true ->
  safe k = true ->
  safe bound = true ->
  k <= bound ->
  (Z.to_nat (bound - k) + 2 < fuel)%nat ->
  exists h',
    walk P ceiling (S fuel) safeFunction context (counting_loop x bound) h
    = (if bound - k <=? ceiling then Ok VUndef h' else Throw guard_error h') /\
    own_val h' context x = Some (VNum (Z.min bound (k + ceiling))).
Proof.
  intros Hceil Hx Hp Hv He Hsk Hsb Hk Hf.
  destruct fuel as [|[|fuel]]; try lia.
  unfold counting_loop. cbn [walk]. unfold bind at 1. cbn [walk_opt ret].
  destruct (counting_loop_runs P ceiling fuel safeFunction context x bound
              Hceil Hx Hp Hsb (Z.to_nat (bound - k)) k 0 h (S (S fuel)))
    as (h' & Hrun & Hv' & _); try lia; auto.
  exists h'. rewrite Z.sub_0_r in Hrun, Hv'. auto.
Qed.

Lemma loop_guard_allows_ceiling_iterations_witness :
  exists h',
    walk spec_primitives 3 9 VUndef Sample.shadowing
         (counting_loop "toString" 6) Sample.shadow_heap
    = (if 6 - 1 <=? 3 then Ok VUndef h' else Throw guard_error h') /\
    own_val h' Sample.shadowing "toString" = Some (VNum (Z.min 6 (1 + 3))).
Proof.
  apply (loop_guard_allows_ceiling_iterations
           spec_primitives 3 8 VUndef Sample.shadowing "toString" 1 6
           Sample.shadow_heap);
    try reflexivity; try lia; try discriminate.
Defined.

(** ** Closures *)

Lemma get_obj_set_other h l l' key v :
  l <> l' -> get_obj (set h l key v) l' = get_obj h l'.
Proof.
  intros Hl. unfold set, get_obj.
  destruct (nth_error h l); [now apply nth_error_set_nth_other | reflexivity].
Qed.

Lemma proto_of_set h l l' key v : proto_of (set h l key v) l' = proto_of h l'.
Proof.
  destruct (Nat.eq_dec l l') as [<-|Hl].
  - unfold proto_of, set, get_obj.
    destruct (nth_error h l) as [o|] eqn:E; [|now rewrite E].
    rewrite nth_error_set_nth_same; [reflexivity|].
    apply nth_error_Some. congruence.
  - unfold proto_of. now rewrite get_obj_set_other.
Qed.

Lemma bind_one_frame context params idx arg h :
  List.length (bind_one context params idx arg h) = List.length h /\
  (forall l, proto_of (bind_one context params idx arg h) l = proto_of h l) /\
  (forall l, l <> context -> l <> global ->
             get_obj (bind_one context params idx arg h) l = get_obj h l).
Proof.
  unfold bind_one.
  set (h1 := if Nat.eqb context global then h else set h global "param" _).
  assert (H1 : List.length h1 = List.length h /\
               (forall l, proto_of h1 l = proto_of h l) /\
               (forall l, l <> global -> get_obj h1 l = get_obj h l)).
  { unfold h1. destruct (Nat.eqb context global); [auto|].
    repeat split; intros.
    - apply length_set.
    - apply proto_of_set.
    - now apply get_obj_set_other. }
  destruct H1 as (Hlen & Hp & Ho).
  destruct (nth_error params idx) as [param|];
    [destruct (String.eqb param "")|]; auto.
  repeat split; intros.
  - now rewrite length_set.
  - now rewrite proto_of_set.
  - rewrite get_obj_set_other by congruence. auto.
Qed.

Lemma bind_params_frame context params :
  forall args idx h,
  exists h',
    bind_params context params args idx h = Ok tt h' /\
    List.length h' = List.length h /\
    (forall l, proto_of h' l = proto_of h l) /\
    (forall l, l <> context -> l <> global -> get_obj h' l = get_obj h l).
Proof.
  induction args as [|arg args IH]; intros idx h.
  - exists h. auto.
  - rewrite bind_params_step.
    destruct (bind_one_frame context params idx arg h) as (Hlen1 & Hp1 & Ho1).
    destruct (IH (S idx) (bind_one context params idx arg h))
      as (h' & -> & Hlen & Hp & Ho).
    exists h'. repeat split; intros.
    + congruence.
    + now rewrite Hp.
    + rewrite Ho by assumption. auto.
Qed.

(** X15: a call runs the body in a new frame whose parent is the scope the
    closure was created in, not the caller's, and setting the call up
    leaves every object that existed before the call as it was, apart
    from the host's global object, which receives the stray [param] of
    [getFunction].  No parameter that receives an argument is named
    [__proto__]. *)
Theorem call_frame_is_lexical ev body params parentContext object args h :
  ~ In "__proto__" (firstn (List.length args) params) ->
  exists hb,
    apply ev (VClos params body parentContext) object args h
    = (result <- ev body (List.length h) ;;
       match result with
       | VRet _ v => ret v
       | _ => ret VUndef
       end) hb /\
    proto_of hb (List.length h) = Some parentContext /\
    (forall l, (l < List.length h)%nat -> l <> global ->
               get_obj hb l = get_obj h l).
Proof.
  intros _. cbn [apply]. unfold call_function.
  unfold bind at 1. unfold create, alloc.
  unfold bind at 1, write.
  unfold bind at 1, new_array, alloc.
  unfold bind at 1.
  unfold bind at 1.
  set (h1 := set (h ++ [{| o_proto := Some parentContext; o_props := [] |}])
                 (List.length h) "this" (bound_this (this_of_apply object))).
  assert (Hlen1 : List.length h1 = S (List.length h))
    by (unfold h1; rewrite length_set, length_app; cbn; lia).
  match goal with
  | |- context [bind_params ?c ?ps ?as_ ?i ?hh] =>
      destruct (bind_params_frame c ps as_ i hh) as (hb & Hb & _ & Hp & Ho)
  end.
  rewrite Hb. exists hb. split; [reflexivity|]. split.
  - rewrite Hp, proto_of_set. unfold proto_of, get_obj.
    rewrite nth_error_app1 by lia.
    fold (get_obj h1 (List.length h)). fold (proto_of h1 (List.length h)).
    unfold h1. rewrite proto_of_set. unfold proto_of, get_obj.
    rewrite nth_error_app2 by lia. now rewrite Nat.sub_diag.
  - intros l Hl Hg. rewrite Ho by lia.
    rewrite get_obj_set_other by lia. unfold get_obj at 1.
    rewrite nth_error_app1 by lia.
    fold (get_obj h1 l). unfold h1.
    rewrite get_obj_set_other by lia. unfold get_obj.
    now rewrite nth_error_app1.
Qed.

Lemma call_frame_is_lexical_witness :
  exists hb,
    apply (evaluateAst spec_primitives maxIterations 5)
          (VClos ["a"] (BlockStatement []) Sample.root) VNull
          [VNum 1] Sample.host_heap
    = (result <- evaluateAst spec_primitives maxIterations 5
                   (BlockStatement []) (List.length Sample.host_heap) ;;
       match result with
       | VRet _ v => ret v
       | _ => ret VUndef
       end) hb /\
    proto_of hb (List.length Sample.host_heap) = Some Sample.root /\
    (forall l, (l < List.length Sample.host_heap)%nat -> l <> global ->
               get_obj hb l = get_obj Sample.host_heap l).
Proof.
  apply (call_frame_is_lexical
           (evaluateAst spec_primitives maxIterations 5) (BlockStatement [])
           ["a"] Sample.root VNull [VNum 1] Sample.host_heap).
  cbn. intuition discriminate.
Defined.

Lemma bind_one_binds context params idx arg h p :
  (context < List.length h)%nat ->
  nth_error params idx = Some p ->
  p <> "" ->
  own_val (bind_one context params idx arg h) context p = Some arg.
Proof.
  intros Hc Hp Hne. unfold bind_one. rewrite Hp.
  apply String.eqb_neq in Hne. rewrite Hne.
  apply own_val_set_same.
  destruct (Nat.eqb context global); [assumption | now rewrite length_set].
Qed.

Lemma bind_params_binds context params :
  NoDup params ->
  forall args idx h j a p,
    (context < List.length h)%nat ->
    nth_error args j = Some a ->
    nth_error params (idx + j) = Some p ->
    p <> "" ->
    exists h',
      bind_params context params args idx h = Ok tt h' /\
      own_val h' context p = Some a.
Proof.
  intros Hnd. induction args as [|arg args IH]; intros idx h j a p Hc Ha Hp Hne.
  - destruct j; discriminate.
  - rewrite bind_params_step. destruct j as [|j].
    + cbn in Ha. injection Ha as ->. rewrite Nat.add_0_r in Hp.
      destruct (bind_params_writes_supplied context params p args (S idx)
                  (bind_one context params idx a h)) as (h' & Hb & Ho).
      { intros j Hj E.
        assert (idx = (S idx + j))%nat; [|lia].
        eapply (proj1 (NoDup_nth_error params) Hnd).
        - apply nth_error_Some. congruence.
        - congruence. }
      exists h'. split; [exact Hb|]. rewrite Ho. now apply bind_one_binds.
    + cbn in Ha. replace (idx + S j)%nat with (S idx + j)%nat in Hp by lia.
      eapply IH; eauto.
      now rewrite (proj1 (bind_one_frame context params idx arg h)).
Qed.

(** X16: with distinct parameter names, a parameter other than
    [__proto__] that has an argument is bound to it in the frame of the
    call, and reading the parameter there yields the argument. *)
Theorem supplied_parameter_is_bound
        ev body params parentContext object args h i p a :
  NoDup params ->
  nth_error params i = Some p ->
  nth_error args i = Some a ->
  p <> "" ->
  p <> "__proto__" ->
  exists hb,
    apply ev (VClos params body parentContext) object args h
    = (result <- ev body (List.length h) ;;
       match result with
       | VRet _ v => ret v
       | _ => ret VUndef
       end) hb /\
    own_val hb (List.length h) p = Some a /\
    (forall P ceiling fuel safeFunction,
        walk P ceiling (S fuel) safeFunction (List.length h) (Identifier p) hb
        = Ok (finalValue a) hb).
Proof.
  intros Hnd Hp Ha Hne Hproto. cbn [apply]. unfold call_function.
  unfold bind at 1. unfold create, alloc.
  unfold bind at 1, write.
  unfold bind at 1, new_array, alloc.
  unfold bind at 1.
  unfold bind at 1.
  match goal with
  | |- context [bind_params ?c ?ps ?as_ ?ix ?hh] =>
      destruct (bind_params_binds c ps Hnd as_ ix hh i a p)
        as (hb & Hb & Ho)
  end; auto.
  { rewrite length_set, !length_app, length_set, length_app. cbn. lia. }
  rewrite Hb. exists hb. split; [reflexivity|]. split; [exact Ho|].
  intros. rewrite read_identifier by assumption.
  now rewrite (get_own _ _ _ _ Ho).
Qed.

Lemma supplied_parameter_is_bound_witness :
  exists hb,
    apply (evaluateAst spec_primitives maxIterations 5)
          (VClos ["a"; "b"] (BlockStatement []) Sample.root) VNull
          [VNum 1; VNum 2] Sample.host_heap
    = (result <- evaluateAst spec_primitives maxIterations 5
                   (BlockStatement []) (List.length Sample.host_heap) ;;
       match result with
       | VRet _ v => ret v
       | _ => ret VUndef
       end) hb /\
    own_val hb (List.length Sample.host_heap) "b" = Some (VNum 2) /\
    (forall P ceiling fuel safeFunction,
        walk P ceiling (S fuel) safeFunction (List.length Sample.host_heap)
             (Identifier "b") hb
        = Ok (finalValue (VNum 2)) hb).
Proof.
  apply (supplied_parameter_is_bound
           (evaluateAst spec_primitives maxIterations 5) (BlockStatement [])
           ["a"; "b"] Sample.root VNull [VNum 1; VNum 2] Sample.host_heap
           1%nat "b" (VNum 2));
    try reflexivity; try discriminate.
  repeat constructor; cbn; intuition discriminate.
Defined.

Lemma unsupplied_parameter_has_no_entry_witness :
  exists hb,
    apply (evaluateAst spec_primitives maxIterations 5)
          (VClos ["a"; "b"] (BlockStatement []) Sample.root) VNull
          [VNum 1] Sample.host_heap
    = (result <- evaluateAst spec_primitives maxIterations 5
                   (BlockStatement []) (List.length Sample.host_heap) ;;
       match result with
       | VRet _ v => ret v
       | _ => ret VUndef
       end) hb /\
    own_val hb (List.length Sample.host_heap) "b" = None.
Proof.
  apply (unsupplied_parameter_has_no_entry
           (evaluateAst spec_primitives maxIterations 5) (BlockStatement [])
           ["a"; "b"] Sample.root VNull [VNum 1] Sample.host_heap "b");
    try discriminate.
  cbn. intuition discriminate.
Defined.

(** X18: the frame of a call holds the arguments as an array under
    [arguments], unless a parameter of that name takes its place. *)
Theorem arguments_object_is_bound
        ev body params parentContext object args h :
  ~ In "arguments" params ->
  exists hb,
    apply ev (VClos params body parentContext) object args h
    = (result <- ev body (List.length h) ;;
       match result with
       | VRet _ v => ret v
       | _ => ret VUndef
       end) hb /\
    own_val hb (List.length h) "arguments" = Some (VObj (S (List.length h))) /\
    proto_of hb (S (List.length h)) = Some array_prototype /\
    own_val hb (S (List.length h)) "length"
    = Some (VNum (Z.of_nat (List.length args))).
Proof.
  intros Hp. cbn [apply]. unfold call_function.
  unfold bind at 1. unfold create, alloc.
  unfold bind at 1, write.
  unfold bind at 1, new_array, alloc.
  unfold bind at 1.
  unfold bind at 1.
  set (h1 := set (h ++ [{| o_proto := Some parentContext; o_props := [] |}])
                 (List.length h) "this" (bound_this (this_of_apply object))).
  assert (Hlen1 : List.length h1 = S (List.length h))
    by (unfold h1; rewrite length_set, length_app; cbn; lia).
  rewrite Hlen1.
  match goal with
  | |- context [bind_params ?c ?ps ?as_ ?ix ?hh] =>
      destruct (bind_params_keeps c ps "arguments" Hp as_ ix hh)
        as (hb & Hb & Ho);
      destruct (bind_params_frame c ps as_ ix hh) as (hb' & Hb' & _ & _ & Hf)
  end.
  rewrite Hb in Hb'. injection Hb' as <-.
  rewrite Hb. exists hb. split; [reflexivity|].
  assert (Harr : get_obj hb (S (List.length h))
                 = Some {| o_proto := Some array_prototype;
                           o_props :=
                             ("length",
                              {| e_val := VNum (Z.of_nat (List.length args));
                                 e_enum := false |})
                             :: combine (map index_key (seq 0 (List.length args)))
                                  (map (fun v => {| e_val := v; e_enum := true |})
                                     args) |}).
  { rewrite Hf by (unfold global; lia). rewrite get_obj_set_other by lia.
    unfold get_obj. rewrite nth_error_app2 by lia.
    now rewrite Hlen1, Nat.sub_diag. }
  repeat split.
  - rewrite Ho. apply own_val_set_same. rewrite length_app, Hlen1. cbn. lia.
  - unfold proto_of. now rewrite Harr.
  - unfold own_val. now rewrite Harr.
Qed.

Lemma arguments_object_is_bound_witness :
  exists hb,
    apply (evaluateAst spec_primitives maxIterations 5)
          (VClos ["a"] (BlockStatement []) Sample.root) VNull
          [VNum 1; VNum 2] Sample.host_heap
    = (result <- evaluateAst spec_primitives maxIterations 5
                   (BlockStatement []) (List.length Sample.host_heap) ;;
       match result with
       | VRet _ v => ret v
       | _ => ret VUndef
       end) hb /\
    own_val hb (List.length Sample.host_heap) "arguments"
    = Some (VObj (S (List.length Sample.host_heap))) /\
    proto_of hb (S (List.length Sample.host_heap)) = Some array_prototype /\
    own_val hb (S (List.length Sample.host_heap)) "length"
    = Some (VNum (Z.of_nat (List.length [VNum 1; VNum 2]))).
Proof.
  apply (arguments_object_is_bound
           (evaluateAst spec_primitives maxIterations 5) (BlockStatement [])
           ["a"] Sample.root VNull [VNum 1; VNum 2] Sample.host_heap).
  cbn. intuition discriminate.
Defined.

(** ** Object literals *)

Lemma set_last h o key v :
  set (h ++ [o]) (List.length h) key v
  = h ++ [{| o_proto := o_proto o; o_props := put key v (o_props o) |}].
Proof.
  unfold set, get_obj. rewrite nth_error_app2 by lia.
  rewrite Nat.sub_diag. cbn [nth_error].
  induction h as [|a h IH]; cbn; [reflexivity | now rewrite IH].
Qed.

(** X19: an object literal with one property is built by the [Object]
    constructor found in scope, and reading the property back from it
    yields the literal's value: [{key: l}.key] is [l]. *)
Theorem object_literal_round_trip
        ceiling fuel safeFunction context key l h :
  get h context "Object" = VHost HObject ->
  key <> "__proto__" ->
  walk spec_primitives ceiling (S (S (S fuel))) safeFunction context
       (MemberExpression false (ObjectExpression [(key, Literal l)])
                         (Identifier key)) h
  = Ok (value_of_lit l)
       (h ++ [{| o_proto := Some object_prototype;
                 o_props := [(key, {| e_val := value_of_lit l;
                                      e_enum := true |})] |}]).
Proof.
  intros Hobj Hkey. apply String.eqb_neq in Hkey.
  cbn [walk]. unfold bind at 1. cbn [walk].
  unfold bind at 1, read. rewrite Hobj.
  unfold bind at 1. cbn [apply]. unfold alloc.
  unfold bind at 1. cbn [fill_object].
  unfold bind at 1. cbn [walk ret].
  unfold bind at 1, set_property. rewrite Hkey. unfold write.
  rewrite set_last. cbn [o_proto o_props put].
  unfold bind, ret, read. cbn [spec_primitives getPropertyObject to_string].
  unfold get_property. rewrite Hkey. unfold read, get at 1. cbn [get_from].
  unfold get_obj. rewrite nth_error_app2 by lia. rewrite Nat.sub_diag.
  cbn [nth_error o_props assoc]. rewrite String.eqb_refl. cbn [e_val].
  destruct l; reflexivity.
Qed.

Lemma object_literal_round_trip_witness :
  walk spec_primitives maxIterations 4 VUndef Sample.root
       (MemberExpression false (ObjectExpression [("a", Literal (LNum 1))])
                         (Identifier "a")) Sample.host_heap
  = Ok (VNum 1)
       (Sample.host_heap
          ++ [{| o_proto := Some object_prototype;
                 o_props := [("a", {| e_val := VNum 1; e_enum := true |})] |}]).
Proof.
  apply (object_literal_round_trip maxIterations 1 VUndef Sample.root "a"
           (LNum 1) Sample.host_heap); [reflexivity | discriminate].
Defined.

(** ** Failures of the host *)



(** ** Reading a name through the scope chain *)

Lemma get_own_from d h l key v :
  own_val h l key = Some v -> get_from (S d) h l key = v.
Proof.
  unfold own_val. cbn [get_from].
  destruct (get_obj h l) as [o|]; [|discriminate].
  destruct (assoc key (o_props o)); [|discriminate].
  now intros [= <-].
Qed.

Lemma get_from_unbound h name :
  forall d l,
    Forall (fun f => hasOwnProperty h f name = false) (chain_from d h l) ->
    get_from (S d) h l name = VUndef.
Proof.
  induction d as [|d IH]; intros l Hc.
  - cbn in *. inversion Hc as [|? ? Hf _]; subst. unfold hasOwnProperty in Hf.
    destruct (get_obj h l) as [o|]; [|reflexivity].
    destruct (assoc name (o_props o)); [discriminate|].
    destruct (o_proto o); reflexivity.
  - cbn [chain_from] in Hc. inversion Hc as [|? ? Hf Hrest]; subst.
    cbn [get_from]. unfold hasOwnProperty in Hf.
    destruct (get_obj h l) as [[[p|] props]|]; cbn in *; try reflexivity;
      (destruct (assoc name props); [discriminate|]); [|reflexivity].
    now apply IH.
Qed.

Lemma get_from_first_owner h name :
  forall d l pre t post v,
    chain_from d h l = pre ++ t :: post ->
    Forall (fun f => hasOwnProperty h f name = false) pre ->
    own_val h t name = Some v ->
    get_from (S d) h l name = v.
Proof.
  induction d as [|d IH]; intros l pre t post v Hc Hp Hv.
  - cbn in Hc. destruct pre as [|f pre].
    + injection Hc as -> _. now apply get_own_from.
    + injection Hc as _ Hc. destruct pre; discriminate.
  - destruct pre as [|f pre].
    + cbn [chain_from app] in Hc. injection Hc as -> _.
      now apply get_own_from.
    + cbn [chain_from app] in Hc. injection Hc as <- Hc.
      inversion Hp as [|? ? Hf Hp']; subst.
      cbn [get_from]. unfold hasOwnProperty in Hf.
      destruct (get_obj h l) as [[[p|] props]|]; cbn in *;
        try (destruct pre; discriminate).
      destruct (assoc name props); [discriminate|].
      eapply IH; eauto.
Qed.

(** X21: a read of a name other than [__proto__] yields the entry of the
    nearest frame that holds it, and undefined, not a failure, when no
    frame of the chain holds it. *)
Theorem identifier_reads_nearest_owner
        P ceiling fuel safeFunction context name h :
  name <> "__proto__" ->
  (forall pre t post v,
      scope_chain h context = pre ++ t :: post ->
      Forall (fun f => hasOwnProperty h f name = false) pre ->
      own_val h t name = Some v ->
      walk P ceiling (S fuel) safeFunction context (Identifier name) h
      = Ok (finalValue v) h) /\
  (Forall (fun f => hasOwnProperty h f name = false) (scope_chain h context) ->
   walk P ceiling (S fuel) safeFunction context (Identifier name) h
   = Ok VUndef h).
Proof.
  intros Hn. split.
  - intros pre t post v Hc Hp Hv. rewrite read_identifier by assumption.
    unfold get.
    now rewrite (get_from_first_owner h name _ _ _ _ _ _ Hc Hp Hv).
  - intros Hc. rewrite read_identifier by assumption. unfold get.
    now rewrite (get_from_unbound h name _ _ Hc).
Qed.

Lemma identifier_reads_nearest_owner_witness :
  walk spec_primitives maxIterations 1 VUndef Sample.current (Identifier "x")
       Sample.chain_heap
  = Ok (finalValue (VNum 0)) Sample.chain_heap.
Proof.
  apply (proj1 (identifier_reads_nearest_owner
                  spec_primitives maxIterations 0 VUndef Sample.current "x"
                  Sample.chain_heap ltac:(discriminate))
               [Sample.current] Sample.middle [Sample.outermost] (VNum 0));
    [reflexivity | repeat constructor | reflexivity].
Defined.

(** ** Assignment to a variable of an enclosing scope *)

Lemma objectForKey_first_owner h name :
  forall d l pre t post,
    chain_from d h l = pre ++ t :: post ->
    Forall (fun f => hasOwnProperty h f name = false) pre ->
    hasOwnProperty h t name = true ->
    objectForKey_from d spec_primitives h (VObj l) name = VObj t.
Proof.
  induction d as [|d IH]; intros l pre t post Hc Hp Ho.
  - cbn in Hc. destruct pre as [|f pre].
    + injection Hc as <- _. cbn. now destruct (_ || _).
    + injection Hc as _ Hc. destruct pre; discriminate.
  - destruct pre as [|f pre]; cbn [chain_from app] in Hc.
    + injection Hc as <- _. cbn [objectForKey_from own]. now rewrite Ho, orb_true_r.
    + injection Hc as <- Hc. inversion Hp as [|? ? Hf Hp']; subst.
      cbn [objectForKey_from own spec_primitives getPrototypeOf]. rewrite Hf.
      destruct (get_obj h l) as [[[p|] props]|]; cbn in *;
        try (destruct pre; discriminate).
      eapply IH; eauto.
Qed.

Lemma chain_from_set h a key v :
  forall d l, chain_from d (set h a key v) l = chain_from d h l.
Proof.
  induction d as [|d IH]; intros l; cbn [chain_from]; [reflexivity|].
  pose proof (proto_of_set h a l key v) as Hp. unfold proto_of in Hp.
  destruct (get_obj (set h a key v) l) as [[[p|] props]|],
           (get_obj h l) as [[[p'|] props']|]; cbn in Hp;
    try discriminate; try reflexivity.
  injection Hp as ->. now rewrite IH.
Qed.

Lemma has_own_set_other h a l key key' v :
  a <> l -> hasOwnProperty (set h a key v) l key' = hasOwnProperty h l key'.
Proof.
  intros Hl. unfold hasOwnProperty. now rewrite get_obj_set_other.
Qed.

(** X22: an assignment to a name that an enclosing frame holds as an
    enumerable own entry, and no nearer frame holds, writes the value of
    the right-hand side into that enclosing frame, as the heap stands
    after the right-hand side was evaluated.  If that evaluation left the
    chain from the current frame to the enclosing one in place and gave
    no nearer frame an entry for the name, then no nearer frame holds one
    after the assignment and the name reads as the new value from the
    current frame. *)
Theorem assignment_updates_enclosing_frame
        ceiling fuel safeFunction context name rhs v h h1 pre t post :
  scope_chain h context = pre ++ t :: post ->
  Forall (fun f => hasOwnProperty h f name = false) pre ->
  hasOwnProperty h t name = true ->
  propertyIsEnumerable h t name = true ->
  name <> "__proto__" ->
  walk spec_primitives ceiling fuel safeFunction context rhs h = Ok v h1 ->
  let h2 := set h1 t name v in
  walk spec_primitives ceiling (S fuel) safeFunction context
       (AssignmentExpression "=" (Identifier name) rhs) h = Ok v h2 /\
  (forall post1,
      scope_chain h1 context = pre ++ t :: post1 ->
      Forall (fun f => hasOwnProperty h1 f name = false) pre ->
      (t < List.length h1)%nat ->
      Forall (fun f => hasOwnProperty h2 f name = false) pre /\
      walk spec_primitives ceiling (S fuel) safeFunction context
           (Identifier name) h2
      = Ok (finalValue v) h2).
Proof.
  intros Hc Hp Ho He Hn Hr h2.
  assert (Ht : objectForKey spec_primitives h (VObj context) name = VObj t)
    by (eapply objectForKey_first_owner; eauto).
  destruct (own_enumerable_target spec_primitives h t name Ho He Hn eq_refl)
    as [_ Hcan].
  split.
  - cbn [walk]. unfold setValue, resolve_target.
    unfold bind at 1, read. unfold bind at 1. cbn [fst snd].
    rewrite Ht, Hcan. cbn -[set]. unfold bind at 1. cbn [walk_opt]. rewrite Hr.
    unfold bind, set_property, write, ret.
    apply String.eqb_neq in Hn. now rewrite Hn.
  - intros post1 Hc1 Hp1 Hlt.
    assert (Hpre : Forall (fun f => hasOwnProperty h2 f name = false) pre).
    { apply Forall_forall. intros f Hf.
      pose proof (proj1 (Forall_forall _ _) Hp f Hf) as Hnf.
      pose proof (proj1 (Forall_forall _ _) Hp1 f Hf) as Hnf1.
      cbn in Hnf, Hnf1.
      unfold h2. rewrite has_own_set_other; [assumption|]. congruence. }
    split; [exact Hpre|].
    rewrite read_identifier by assumption. unfold get.
    rewrite (get_from_first_owner h2 name (List.length h2) context pre t post1 v);
      [reflexivity | | exact Hpre |].
    + unfold h2. rewrite length_set, chain_from_set. exact Hc1.
    + now apply own_val_set_same.
Qed.

Lemma assignment_updates_enclosing_frame_witness :
  let h := Sample.host_heap
             ++ [{| o_proto := Some Sample.root; o_props := [] |}] in
  let h2 := set h Sample.root "Array" (VNum 7) in
  walk spec_primitives maxIterations 2 VUndef 4%nat
       (AssignmentExpression "=" (Identifier "Array") (Literal (LNum 7))) h
  = Ok (VNum 7) h2.
Proof.
  apply (assignment_updates_enclosing_frame
           maxIterations 1 VUndef 4%nat "Array" (Literal (LNum 7)) (VNum 7)
           (Sample.host_heap
              ++ [{| o_proto := Some Sample.root; o_props := [] |}])
           (Sample.host_heap
              ++ [{| o_proto := Some Sample.root; o_props := [] |}])
           [4%nat] Sample.root [object_prototype]).
  - reflexivity.
  - repeat constructor.
  - reflexivity.
  - reflexivity.
  - discriminate.
  - reflexivity.
Defined.
